(** * BlinkDecoder: the blink encoder and the Morse decoder of [Blink.py]

    A shallow embedding of the class [BlinkMorseCode]:

    - Python [str] values are [string]s; the transcript and the code table
      are ASCII, the placeholder of the decoder is written in UTF-8.
    - [time.time()] is an oracle: the k-th call made while a frame is
      processed returns the k-th reading of a [Clock].  Readings and the
      thresholds are exact rationals ([Q]); the rounding of Python floats
      is outside the model.
    - The fields of [self] that the two methods read or write form the
      record [BlinkMorseCode]; drawing and printing are left out. *)

From Stdlib Require Import List String Ascii Bool Arith Lia QArith Qabs.
Import ListNotations.

Local Close Scope Q_scope.
Local Open Scope list_scope.
Local Open Scope string_scope.

(** ** Python string operations used by the source *)

Module PyStr.

(** [str.isspace] on the ASCII range: TAB, LF, VT, FF, CR, FS, GS, RS, US
    and the space. *)
Definition isspace (c : ascii) : bool :=
  let n := nat_of_ascii c in
  ((9 <=? n)%nat && (n <=? 13)%nat) || ((28 <=? n)%nat && (n <=? 32)%nat).

Definition is_empty (s : string) : bool :=
  match s with
  | EmptyString => true
  | String _ _ => false
  end.

(** [s.lstrip()], [s.rstrip()] and [s.strip()]. *)
Fixpoint lstrip (s : string) : string :=
  match s with
  | EmptyString => EmptyString
  | String c s' => if isspace c then lstrip s' else s
  end.

Fixpoint rstrip (s : string) : string :=
  match s with
  | EmptyString => EmptyString
  | String c s' =>
      let r := rstrip s' in
      if isspace c && is_empty r then EmptyString else String c r
  end.

Definition strip (s : string) : string := rstrip (lstrip s).

(** [s.endswith(suffix)]: [suffix] is one of the tails of [s]. *)
Fixpoint endswith (s suffix : string) : bool :=
  (s =? suffix) ||
  match s with
  | EmptyString => false
  | String _ s' => endswith s' suffix
  end.

(** Puts a character in front of the first piece of a split. *)
Definition cons_head (c : ascii) (pieces : list string) : list string :=
  match pieces with
  | [] => [String c EmptyString]
  | w :: ws => String c w :: ws
  end.

(** The scan behind [s.split(sep)] for a non-empty [sep]: occurrences are
    taken leftmost first and do not overlap; [skip] counts the characters of
    the occurrence just found that are still to be passed over. *)
Fixpoint split_scan (sep : string) (skip : nat) (s : string) : list string :=
  match s with
  | EmptyString => [EmptyString]
  | String c s' =>
      match skip with
      | S k => split_scan sep k s'
      | O =>
          if prefix sep s
          then EmptyString :: split_scan sep (length sep - 1) s'
          else cons_head c (split_scan sep 0 s')
      end
  end.

(** What a call returns: a value, or the exception it raises. *)
Inductive Exn : Type := ValueError.

Inductive Result (A : Type) : Type :=
| Returns (a : A)
| Raises (e : Exn).
Arguments Returns {A} a.
Arguments Raises {A} e.

(** [s.split(sep)]; Python raises [ValueError] on an empty separator. *)
Definition split (s sep : string) : Result (list string) :=
  if is_empty sep then Raises ValueError
  else Returns (split_scan sep 0 s).

(** [s.split()]: the maximal runs of non-whitespace characters. *)
Fixpoint split_ws (s : string) : list string :=
  match s with
  | EmptyString => []
  | String c s' =>
      if isspace c then split_ws s'
      else
        match s' with
        | EmptyString => [String c EmptyString]
        | String c' _ =>
            if isspace c' then String c EmptyString :: split_ws s'
            else cons_head c (split_ws s')
        end
  end.

(** [d.get(key, default)] on a dict given by its items. *)
Fixpoint get (d : list (string * string)) (key default : string) : string :=
  match d with
  | [] => default
  | (k, v) :: d' => if k =? key then v else get d' key default
  end.

Definition keys (d : list (string * string)) : list string := map fst d.
Definition values (d : list (string * string)) : list string := map snd d.

End PyStr.
Import PyStr.

(** ** The class [BlinkMorseCode] *)

(** [self.morse_code_map], set once in [__init__] and never assigned again. *)
Definition morse_code_map : list (string * string) :=
  [ (".-", "A"); ("-...", "B"); ("-.-.", "C"); ("-..", "D"); (".", "E"); ("..-.", "F");
    ("--.", "G"); ("....", "H"); ("..", "I"); (".---", "J"); ("-.-", "K"); (".-..", "L");
    ("--", "M"); ("-.", "N"); ("---", "O"); (".--.", "P"); ("--.-", "Q"); (".-.", "R");
    ("...", "S"); ("-", "T"); ("..-", "U"); ("...-", "V"); (".--", "W"); ("-..-", "X");
    ("-.--", "Y"); ("--..", "Z"); ("-----", "0"); (".----", "1"); ("..---", "2");
    ("...--", "3"); ("....-", "4"); (".....", "5"); ("-....", "6"); ("--...", "7");
    ("---..", "8"); ("----.", "9"); (".-.-.-", "."); ("-.-.--", "!"); ("--..--", ",") ].

(** The default of the table lookup: U+25CA between two spaces. *)
Definition unknown_letter : string := " ◊ ".

(** The first byte of the UTF-8 form of U+25CA; no table value and no
    transcript character contains it. *)
Definition lozenge_lead : ascii := ascii_of_nat 226.

(** The two loops of [decode_morse_code], each threading [decoded]. *)
Definition decode_letters (decoded : string) (letters : list string) : string :=
  fold_left (fun decoded letter => decoded ++ get morse_code_map letter unknown_letter)
            letters decoded.

Definition decode_words (decoded : string) (words : list string) : string :=
  fold_left (fun decoded word => decode_letters decoded (split_ws word) ++ " ")
            words decoded.

Definition decode_morse_code (morse : string) : Result string :=
  match split (strip morse) "   " with
  | Raises e => Raises e
  | Returns words => Returns (strip (decode_words "" words))
  end.

(** *** State and clock *)

(** The fields of [self] used by [process_frame]. *)
Record BlinkMorseCode : Type := mkBlinkMorseCode {
  blink_threshold : Q;
  blink_start_time : Q;
  last_blink_end : Q;
  morse_code : string
}.

(** The default of the parameter [blink_threshold] of [__init__]. *)
Definition default_blink_threshold : Q := 0.03.

(** A point of the face mesh; only its [y] coordinate is read. *)
Record Landmark : Type := { y : Q }.

(** [face_landmarks.landmark], indexed by position.  The mesh always
    delivers every index the code reads, so the sequence is a total map. *)
Definition Landmarks : Type := nat -> Landmark.

(** [results.multi_face_landmarks]: [None] and the empty list are both
    falsy and both leave the loop without an iteration, so both are []. *)
Definition Results : Type := list Landmarks.

Definition eye_aspect_ratio (landmarks : Landmarks) (eye_indices : nat * nat) : Q :=
  let top := landmarks (fst eye_indices) in
  let bottom := landmarks (snd eye_indices) in
  Qabs (y top - y bottom).

Definition Qltb (a b : Q) : bool := negb (Qle_bool b a).

(** The readings of [time.time()] during one call of [process_frame]:
    [clock k] answers the k-th call. *)
Definition Clock : Type := nat -> Q.

(** [__init__]: the fields as the constructor leaves them; its one clock
    call gives [last_blink_end]. *)
Definition __init__ (blink_threshold : Q) (clock : Clock) : BlinkMorseCode :=
  {| blink_threshold := blink_threshold;
     blink_start_time := 0;
     last_blink_end := clock 0%nat;
     morse_code := "" |}.

(** A computation of the method body: it reads the clock, and threads
    [self] together with the number of clock calls made so far. *)
Definition M (A : Type) : Type :=
  Clock -> BlinkMorseCode * nat -> A * (BlinkMorseCode * nat).

Definition ret {A : Type} (a : A) : M A := fun _ st => (a, st).

Definition bind {A B : Type} (m : M A) (k : A -> M B) : M B :=
  fun clock st => let (a, st') := m clock st in k a clock st'.

Notation "x <- m ;; k" := (bind m (fun x => k))
  (at level 61, m at next level, right associativity).
Notation "m ;;; k" := (bind m (fun _ => k))
  (at level 61, right associativity).

Definition time_time : M Q :=
  fun clock st => (clock (snd st), (fst st, S (snd st))).

Definition self_get {A : Type} (field : BlinkMorseCode -> A) : M A :=
  fun _ st => (field (fst st), st).

Definition self_update (f : BlinkMorseCode -> BlinkMorseCode) : M unit :=
  fun _ st => (tt, (f (fst st), snd st)).

Definition set_blink_start_time (t : Q) : M unit :=
  self_update (fun self =>
    mkBlinkMorseCode (blink_threshold self) t (last_blink_end self) (morse_code self)).

Definition set_last_blink_end (t : Q) : M unit :=
  self_update (fun self =>
    mkBlinkMorseCode (blink_threshold self) (blink_start_time self) t (morse_code self)).

(** [self.morse_code += text] *)
Definition morse_code_add (text : string) : M unit :=
  self_update (fun self =>
    mkBlinkMorseCode (blink_threshold self) (blink_start_time self) (last_blink_end self)
                     (morse_code self ++ text)).

Definition when (b : bool) (m : M unit) : M unit := if b then m else ret tt.

(** *** [process_frame] *)

(** Lines 94-110: the blink detection of one face. *)
Definition blink_detection (left_ear right_ear : Q) : M unit :=
  threshold <- self_get blink_threshold ;;
  if Qltb left_ear threshold && Qltb right_ear threshold then
    (* eyes closed *)
    start <- self_get blink_start_time ;;
    when (Qeq_bool start 0)
      (now <- time_time ;; set_blink_start_time now)
  else
    (* eyes open *)
    start <- self_get blink_start_time ;;
    when (Qltb 0 start)
      (now <- time_time ;;
       let blink_duration := (now - start)%Q in
       set_blink_start_time 0 ;;;
       (if Qltb blink_duration 0.4 then morse_code_add "."
        else if Qltb blink_duration 0.8 then morse_code_add "-"
        else ret tt) ;;;
       now' <- time_time ;;
       set_last_blink_end now').

(** Lines 113-122: the space detection, run for every face after the
    blink detection, whatever the eyes did. *)
Definition space_detection : M unit :=
  now <- time_time ;;
  last <- self_get last_blink_end ;;
  if Qltb 1.0 (now - last) then
    (* word space *)
    code <- self_get morse_code ;;
    when (negb (endswith code "   "))
      (morse_code_add "   " ;;;
       now' <- time_time ;;
       set_last_blink_end now')
  else
    now2 <- time_time ;;
    last2 <- self_get last_blink_end ;;
    when (Qltb 0.8 (now2 - last2))
      (* letter space *)
      (code <- self_get morse_code ;;
       when (negb (endswith code " "))
         (morse_code_add " " ;;;
          now' <- time_time ;;
          set_last_blink_end now')).

Definition left_eye : nat * nat := (159, 145).
Definition right_eye : nat * nat := (386, 374).

(** The body of the loop over the detected faces. *)
Definition process_face (face_landmarks : Landmarks) : M unit :=
  let left_ear := eye_aspect_ratio face_landmarks left_eye in
  let right_ear := eye_aspect_ratio face_landmarks right_eye in
  blink_detection left_ear right_ear ;;;
  space_detection.

Fixpoint for_each_face (faces : list Landmarks) : M unit :=
  match faces with
  | [] => ret tt
  | face_landmarks :: rest => process_face face_landmarks ;;; for_each_face rest
  end.

(** [process_frame], as far as [self] is concerned: the state left behind
    when the frame's clock calls are answered by [clock]. *)
Definition process_frame (self : BlinkMorseCode) (results : Results) (clock : Clock)
  : BlinkMorseCode :=
  fst (snd (for_each_face results clock (self, 0))).

(** *** Samples *)

(** The test the code makes at line 94. *)
Definition eyes_closed (self : BlinkMorseCode) (face_landmarks : Landmarks) : bool :=
  Qltb (eye_aspect_ratio face_landmarks left_eye) (blink_threshold self) &&
  Qltb (eye_aspect_ratio face_landmarks right_eye) (blink_threshold self).

(** A sample taken at one instant: every clock call of the frame reads [t]. *)
Definition at_instant (t : Q) : Clock := fun _ => t.

Definition observe (self : BlinkMorseCode) (results : Results) (t : Q) : BlinkMorseCode :=
  process_frame self results (at_instant t).

(** A session: the frames in arrival order, each with its instant. *)
Definition run (self : BlinkMorseCode) (frames : list (Results * Q)) : BlinkMorseCode :=
  fold_left (fun self frame => observe self (fst frame) (snd frame)) frames self.

(** Faces for examples: every landmark at height 0 but the upper lids. *)
Definition face_with_lids (left_gap right_gap : Q) : Landmarks :=
  fun i => if Nat.eqb i 159 then {| y := left_gap |}
           else if Nat.eqb i 386 then {| y := right_gap |}
           else {| y := 0 |}.

Definition closed_face : Landmarks := face_with_lids 0.01 0.01.
Definition open_face : Landmarks := face_with_lids 0.05 0.05.

(** * The vocabulary of the statements *)

(** *** What the two halves of the loop body leave behind *)

(** [self] after a space was appended at the clock reading [t]. *)
Definition with_space (self : BlinkMorseCode) (space : string) (t : Q) : BlinkMorseCode :=
  mkBlinkMorseCode (blink_threshold self) (blink_start_time self) t
                   (morse_code self ++ space).

(** What lines 104-109 append for a blink of the given duration. *)
Definition blink_symbol (blink_duration : Q) : string :=
  if Qltb blink_duration 0.4 then "."
  else if Qltb blink_duration 0.8 then "-"
  else "".

(** *** Closures *)


(** *** The alphabet of the transcript *)

(** Dot, dash and space. *)
Definition transcript_char (c : ascii) : bool :=
  (c =? ".")%char || (c =? "-")%char || (c =? " ")%char.

Fixpoint all_chars (p : ascii -> bool) (s : string) : bool :=
  match s with
  | EmptyString => true
  | String c s' => p c && all_chars p s'
  end.

(** [new] is [old] followed by transcript characters. *)
Definition extends (old new : string) : Prop :=
  exists suffix : string, new = old ++ suffix /\ all_chars transcript_char suffix = true.

(** *** Runs of spaces *)

(** A scan of the transcript that tracks the length of the run of spaces it
    is in, and stops ([None]) at a run of two or of more than four. *)
Definition run_step (state : option nat) (c : ascii) : option nat :=
  match state with
  | None => None
  | Some r =>
      if (c =? " ")%char then (if (r <? 4)%nat then Some (S r) else None)
      else (if (r =? 2)%nat then None else Some 0%nat)
  end.

Fixpoint run_scan (state : option nat) (s : string) : option nat :=
  match s with
  | EmptyString => state
  | String c s' => run_scan (run_step state c) s'
  end.

(** Every maximal run of spaces has length 1, 3 or 4. *)
Definition space_runs_ok (s : string) : bool :=
  match run_scan (Some 0%nat) s with
  | Some r => negb (r =? 2)%nat
  | None => false
  end.

(** *** The decoder as joins *)

(** The table lookup of one letter, with its default. *)
Definition decode_letter (letter : string) : string :=
  get morse_code_map letter unknown_letter.

(** The decoder as the specification words it: the decoded letters of a
    word joined with no separator, the words joined with a single space,
    the result trimmed. *)
Definition join_letters (word : string) : string :=
  concat "" (map decode_letter (split_ws word)).

Definition join_words (words : list string) : string :=
  concat " " (map join_letters words).

Definition decode_joined (morse : string) : string :=
  strip (join_words (split_scan "   " 0 (strip morse))).

(** *** Letters and placeholders *)

(** How often [c] occurs in [s]. *)
Fixpoint count_char (c : ascii) (s : string) : nat :=
  match s with
  | EmptyString => 0
  | String a s' => (if (a =? c)%char then 1 else 0) + count_char c s'
  end.

(** The letters that [decode_morse_code] looks up, in order. *)
Definition letters_of (morse : string) : list string :=
  flat_map split_ws (split_scan "   " 0 (strip morse)).

Definition in_table (letter : string) : bool :=
  existsb (fun k => k =? letter) (keys morse_code_map).

Definition unknown_letters (letters : list string) : list string :=
  filter (fun letter => negb (in_table letter)) letters.

(** The letters as the specification cuts them: each word split at every
    single space. *)
Definition single_space_letters (word : string) : list string :=
  split_scan " " 0 word.

(** *** The reference encoding *)

(** The Morse string of a character: the key of the table item that holds
    it. *)
Fixpoint key_of (d : list (string * string)) (value : string) : string :=
  match d with
  | [] => ""
  | (k, v) :: d' => if v =? value then k else key_of d' value
  end.

Definition encode_letter (c : ascii) : string := key_of morse_code_map (String c "").

(** The characters that the table covers. *)
Definition covered (c : ascii) : bool :=
  existsb (fun v => v =? String c "") (values morse_code_map).

(** The reference encoding of the specification, which the source does not
    have: each character of a word as its Morse string, the letters of a
    word joined by single spaces, the words by triple spaces. *)
Definition encode_word (word : string) : string :=
  concat " " (map encode_letter (list_ascii_of_string word)).

Definition encode_reference (words : list string) : string :=
  concat "   " (map encode_word words).

(** Strings without blanks, and strings whose blanks are each followed by
    a character that is not a blank. *)
Definition not_space (c : ascii) : bool := negb (isspace c).

Definition solid (s : string) : bool := negb (is_empty s) && all_chars not_space s.

Definition starts_solid (s : string) : bool :=
  match s with
  | EmptyString => false
  | String c _ => not_space c
  end.

Fixpoint tight (s : string) : bool :=
  match s with
  | EmptyString => true
  | String c s' => (not_space c || starts_solid s') && tight s'
  end.

(** The shape of an encoded word: it starts with a character that is not
    a blank, and every blank in it stands alone between two such. *)
Definition morse_word (m : string) : Prop := tight m = true /\ starts_solid m = true.

(** A word of a text: not empty, every character covered by the table. *)
Definition text_word (word : string) : Prop :=
  word <> "" /\ all_chars covered word = true.

(** *** A state for the examples *)

Definition after_dot : BlinkMorseCode :=
  run (__init__ default_blink_threshold (at_instant 100))
      [([closed_face], 100.1%Q); ([open_face], 100.3%Q)].

(** * The rest of the class *)

(** *** Sessions under arbitrary clocks *)

(** The calls of [process_frame] of a session, each frame with the clock
    readings it gets. *)
Definition session (self : BlinkMorseCode) (frames : list (Results * Clock)) : BlinkMorseCode :=
  fold_left (fun self frame => process_frame self (fst frame) (snd frame)) frames self.

(** A clock that never goes back. *)
Definition monotone (clock : Clock) : Prop :=
  forall i j : nat, (i <= j)%nat -> (clock i <= clock j)%Q.

(** The gap timer is not ahead of the next clock reading. *)
Definition timer_behind (clock : Clock) (st : BlinkMorseCode * nat) : Prop :=
  (last_blink_end (fst st) <= clock (snd st))%Q.

Definition spaces_only (s : string) : bool := all_chars (fun c => (c =? " ")%char) s.

Definition blanks_only (s : string) : bool := all_chars isspace s.

(** What one face can make a frame append: at most one symbol, then at
    most one space. *)
Definition symbol_or_none (s : string) : Prop := s = "" \/ s = "." \/ s = "-".

Definition space_or_none (s : string) : Prop := s = "" \/ s = " " \/ s = "   ".

(** The characters of a decoded text: the values of the table, the space,
    and the three bytes of the placeholder glyph. *)
Definition decoded_char (c : ascii) : bool :=
  covered c || (c =? " ")%char ||
  (nat_of_ascii c =? 226)%nat || (nat_of_ascii c =? 151)%nat || (nat_of_ascii c =? 138)%nat.

(** The keys of the table: one to six dots and dashes. *)
Definition dot_or_dash (c : ascii) : bool := (c =? ".")%char || (c =? "-")%char.

Definition morse_key (k : string) : bool :=
  (1 <=? length k)%nat && (length k <=? 6)%nat && all_chars dot_or_dash k.

(** *** The main loop *)

Module Main.

(** One turn of the loop of [run] in which [cap.read()] gives a frame: what
    the face mesh finds in it, the clock readings of [process_frame], and
    the answer of [cv2.waitKey(1)]. *)
Record Frame : Type := {
  results : Results;
  clock : Clock;
  key : Z
}.

(** [key == ord('q') or key == 27] *)
Definition quit_key (key : Z) : bool := (key =? 113)%Z || (key =? 27)%Z.

(** The loop of [run] over the frames that the camera delivers before
    [cap.read()] fails: each frame is processed, then the key is looked at.
    An interrupt from the keyboard is outside the model. *)
Fixpoint loop (self : BlinkMorseCode) (frames : list Frame) : BlinkMorseCode :=
  match frames with
  | [] => self
  | frame :: rest =>
      let self' := process_frame self (results frame) (clock frame) in
      if quit_key (key frame) then self' else loop self' rest
  end.

(** [run]: with a camera that does not open ([None]) it returns at once;
    otherwise it loops and then decodes the transcript.  The result is
    [self] as the loop leaves it, with the decoded message. *)
Definition run (self : BlinkMorseCode) (camera : option (list Frame))
  : option (BlinkMorseCode * Result string) :=
  match camera with
  | None => None
  | Some frames =>
      let self' := loop self frames in
      Some (self', decode_morse_code (morse_code self'))
  end.

(** What the frames hand to [process_frame]. *)
Definition inputs (frames : list Frame) : list (Results * Clock) :=
  map (fun frame => (results frame, clock frame)) frames.

End Main.

(** *** Transcripts of known letters *)

(** A word given by its letters, each a key of the table, and a transcript
    given by its words: the letters of a word one space apart, the words
    three spaces apart. *)
Definition known_word (letters : list string) : Prop :=
  letters <> [] /\ Forall (fun k => in_table k = true) letters.

Definition transcript_of (words : list (list string)) : string :=
  concat "   " (map (concat " ") words).

(** The text of such a word and of such a transcript. *)
Definition word_text (letters : list string) : string :=
  concat "" (map decode_letter letters).

Definition text_of (words : list (list string)) : string :=
  concat " " (map word_text words).

(** *** An independent reading of a transcript *)

(** The end of a string, or a blank. *)
Definition at_blank_or_end (s : string) : bool :=
  match s with
  | EmptyString => true
  | String c _ => isspace c
  end.

(** [letters] are the maximal runs of characters that are not blanks in
    [s], from left to right: [s] is blanks, then a letter without a blank
    in it, which stops at a blank or at the end, and so on. *)
Inductive runs_of : string -> list string -> Prop :=
| runs_none (pad : string) :
    blanks_only pad = true -> runs_of pad []
| runs_cons (pad letter rest : string) (letters : list string) :
    blanks_only pad = true ->
    solid letter = true ->
    at_blank_or_end rest = true ->
    runs_of rest letters ->
    runs_of (pad ++ letter ++ rest) (letter :: letters).

(** The last character is not a blank. *)
Fixpoint ends_solid (s : string) : bool :=
  match s with
  | EmptyString => false
  | String c s' => if is_empty s' then not_space c else ends_solid s'
  end.

(** Empty, or no blank at either end. *)
Definition trimmed (s : string) : bool :=
  is_empty s || (starts_solid s && ends_solid s).

(** [core] is [s] without the blanks at its two ends. *)
Definition trimmed_of (s core : string) : Prop :=
  exists before after : string,
    s = before ++ core ++ after /\
    blanks_only before = true /\ blanks_only after = true /\
    trimmed core = true.

(** [sep] occurs somewhere in [s]. *)
Fixpoint contains (sep s : string) : bool :=
  prefix sep s ||
  match s with
  | EmptyString => false
  | String _ s' => contains sep s'
  end.

(** [words] are the pieces of [s] between the occurrences of the word
    separator, taken leftmost first and not overlapping: no separator
    starts inside a piece that one follows, and none occurs in the last
    piece. *)
Inductive separated : string -> list string -> Prop :=
| separated_last (word : string) :
    contains "   " word = false -> separated word [word]
| separated_more (word rest : string) (words : list string) :
    contains "   " (word ++ "  ") = false ->
    separated rest words ->
    separated (word ++ "   " ++ rest) (word :: words).

(** *** The mesh as the sequence it is *)

(** [landmarks[i]] for an index that is not negative: the item, or the
    [IndexError] that Python raises past the end of the sequence. *)
Inductive Indexed (A : Type) : Type :=
| Item (a : A)
| IndexError.
Arguments Item {A} a.
Arguments IndexError {A}.

Definition landmark_at (mesh : list Landmark) (i : nat) : Indexed Landmark :=
  match nth_error mesh i with
  | Some point => Item point
  | None => IndexError
  end.

(** [eye_aspect_ratio] on a mesh given as a sequence: [top] is looked up
    first, then [bottom]. *)
Definition eye_aspect_ratio_in (mesh : list Landmark) (eye_indices : nat * nat) : Indexed Q :=
  match landmark_at mesh (fst eye_indices) with
  | IndexError => IndexError
  | Item top =>
      match landmark_at mesh (snd eye_indices) with
      | IndexError => IndexError
      | Item bottom => Item (Qabs (y top - y bottom))
      end
  end.

(** The sequence as the map that [process_frame] reads. *)
Definition mesh_map (mesh : list Landmark) : Landmarks :=
  fun i => nth i mesh {| y := 0 |}.

(** *** Frames and clocks for the examples *)

(** A frame with a face and the key "q", and a frame with no face and no
    key. *)
Definition quit_frame : Main.Frame :=
  {| Main.results := [open_face]; Main.clock := at_instant 101.4; Main.key := 113 |}.

Definition idle_frame : Main.Frame :=
  {| Main.results := []; Main.clock := at_instant 100.5; Main.key := (-1) |}.


(** * Properties *)

(** ** The model on examples *)

(** The placeholder is five bytes: a space, the three bytes of U+25CA, a
    space. *)
Example unknown_letter_bytes :
  map nat_of_ascii (list_ascii_of_string unknown_letter) = [32; 226; 151; 138; 32]%nat /\
  count_char lozenge_lead unknown_letter = 1%nat.
Proof. split; reflexivity. Qed.

Example decode_sos : decode_morse_code "... --- ... .-.-.-.-" = Returns "SOS ◊".
Proof. reflexivity. Qed.

Example decode_two_words : decode_morse_code " .... ..   - .... . .-. .   " = Returns "HI THERE".
Proof. reflexivity. Qed.

Example blink_02 :
  morse_code (run (__init__ default_blink_threshold (at_instant 100))
                  [([closed_face], 100.1%Q); ([closed_face], 100.2%Q); ([open_face], 100.3%Q)])
  = ".".
Proof. vm_compute. reflexivity. Qed.

(** ** Rational comparisons *)

Arguments Qltb : simpl never.
Arguments Qle_bool : simpl never.
Arguments Qeq_bool : simpl never.
Arguments Qminus : simpl never.
Arguments Qabs : simpl never.

Lemma Qltb_lt (a b : Q) : Qltb a b = true <-> (a < b)%Q.
Proof.
  unfold Qltb. rewrite negb_true_iff, <- not_true_iff_false, Qle_bool_iff.
  split; [apply Qnot_le_lt | apply Qlt_not_le].
Qed.

Lemma Qltb_ge (a b : Q) : Qltb a b = false <-> (b <= a)%Q.
Proof.
  unfold Qltb. rewrite negb_false_iff. apply Qle_bool_iff.
Qed.

Lemma Qltb_irrefl_minus (t : Q) (bound : Q) : (0 <= bound)%Q -> Qltb bound (t - t) = false.
Proof.
  intros Hb. apply Qltb_ge. setoid_replace (t - t)%Q with 0%Q by ring. exact Hb.
Qed.

(** ** Facts on the string operations *)

Lemma append_empty_r (s : string) : s ++ "" = s.
Proof. induction s as [|c s IH]; cbn; [reflexivity | now rewrite IH]. Qed.

Lemma append_assoc (a b c : string) : (a ++ b) ++ c = a ++ (b ++ c).
Proof. induction a as [|x a IH]; cbn; [reflexivity | now rewrite IH]. Qed.

Lemma endswith_unfold (s suffix : string) :
  endswith s suffix =
  (s =? suffix) || match s with
                   | EmptyString => false
                   | String _ s' => endswith s' suffix
                   end.
Proof. destruct s; reflexivity. Qed.

Lemma endswith_refl (s : string) : endswith s s = true.
Proof. rewrite endswith_unfold, String.eqb_refl. reflexivity. Qed.

Lemma endswith_append (s suffix : string) : endswith (s ++ suffix) suffix = true.
Proof.
  induction s as [|c s IH]; cbn [append].
  - apply endswith_refl.
  - rewrite endswith_unfold, IH. apply orb_true_r.
Qed.

Lemma endswith_tail (s suffix : string) (c : ascii) :
  endswith s (String c suffix) = true -> endswith s suffix = true.
Proof.
  induction s as [|a s IH]; intros H.
  - discriminate H.
  - rewrite endswith_unfold in H. apply orb_true_iff in H as [H|H].
    + apply String.eqb_eq in H. rewrite H.
      rewrite endswith_unfold, (endswith_refl suffix). apply orb_true_r.
    + rewrite endswith_unfold, (IH H). apply orb_true_r.
Qed.

Lemma endswith_word_letter (s : string) :
  endswith s "   " = true -> endswith s " " = true.
Proof. intros H. apply endswith_tail in H. apply endswith_tail in H. exact H. Qed.

(** ** Running the two halves of the loop body *)

Ltac run_body :=
  unfold blink_detection, space_detection, bind, ret, when, time_time, self_get,
    self_update, set_blink_start_time, set_last_blink_end, morse_code_add;
  cbn [fst snd blink_threshold blink_start_time last_blink_end morse_code negb].

Lemma space_detection_run (clock : Clock) (self : BlinkMorseCode) (n : nat) :
  space_detection clock (self, n) =
  if Qltb 1.0 (clock n - last_blink_end self) then
    if endswith (morse_code self) "   " then (tt, (self, S n))
    else (tt, (with_space self "   " (clock (S n)), S (S n)))
  else if Qltb 0.8 (clock (S n) - last_blink_end self) then
    if endswith (morse_code self) " " then (tt, (self, S (S n)))
    else (tt, (with_space self " " (clock (S (S n))), S (S (S n))))
  else (tt, (self, S (S n))).
Proof.
  run_body.
  destruct (Qltb 1.0 (clock n - last_blink_end self)); run_body.
  - destruct (endswith (morse_code self) "   "); reflexivity.
  - destruct (Qltb 0.8 (clock (S n) - last_blink_end self)); run_body.
    + destruct (endswith (morse_code self) " "); reflexivity.
    + reflexivity.
Qed.

Lemma blink_detection_run (clock : Clock) (self : BlinkMorseCode) (n : nat) (left_ear right_ear : Q) :
  blink_detection left_ear right_ear clock (self, n) =
  if Qltb left_ear (blink_threshold self) && Qltb right_ear (blink_threshold self) then
    if Qeq_bool (blink_start_time self) 0
    then (tt, (mkBlinkMorseCode (blink_threshold self) (clock n) (last_blink_end self)
                                (morse_code self), S n))
    else (tt, (self, n))
  else
    if Qltb 0 (blink_start_time self)
    then (tt, (mkBlinkMorseCode (blink_threshold self) 0 (clock (S n))
                 (morse_code self ++ blink_symbol (clock n - blink_start_time self)),
               S (S n)))
    else (tt, (self, n)).
Proof.
  run_body.
  destruct (Qltb left_ear (blink_threshold self) && Qltb right_ear (blink_threshold self));
    run_body.
  - destruct (Qeq_bool (blink_start_time self) 0); reflexivity.
  - destruct (Qltb 0 (blink_start_time self)); run_body; [|reflexivity].
    unfold blink_symbol.
    destruct (Qltb (clock n - blink_start_time self) 0.4); run_body.
    + reflexivity.
    + destruct (Qltb (clock n - blink_start_time self) 0.8); run_body.
      * reflexivity.
      * rewrite append_empty_r. destruct self; reflexivity.
Qed.

Lemma process_face_run (clock : Clock) (st : BlinkMorseCode * nat) (face_landmarks : Landmarks) :
  process_face face_landmarks clock st =
  space_detection clock
    (snd (blink_detection (eye_aspect_ratio face_landmarks left_eye)
                          (eye_aspect_ratio face_landmarks right_eye) clock st)).
Proof.
  unfold process_face, bind.
  destruct (blink_detection _ _ clock st) as [u st']. reflexivity.
Qed.

Lemma process_frame_one (self : BlinkMorseCode) (face_landmarks : Landmarks) (clock : Clock) :
  process_frame self [face_landmarks] clock =
  fst (snd (process_face face_landmarks clock (self, 0%nat))).
Proof.
  unfold process_frame, for_each_face, bind, ret.
  destruct (process_face face_landmarks clock (self, 0%nat)) as [u st']. reflexivity.
Qed.

(** An open sample while no closure is pending runs the space detection only. *)
Lemma observe_open_idle (self : BlinkMorseCode) (face_landmarks : Landmarks) (t : Q) :
  eyes_closed self face_landmarks = false ->
  (blink_start_time self == 0)%Q ->
  observe self [face_landmarks] t =
  fst (snd (space_detection (at_instant t) (self, 0%nat))).
Proof.
  intros Hopen Hidle.
  unfold observe. rewrite process_frame_one, process_face_run, blink_detection_run.
  unfold eyes_closed in Hopen. rewrite Hopen.
  assert (Hz : Qltb 0 (blink_start_time self) = false).
  { apply Qltb_ge. rewrite Hidle. apply Qle_refl. }
  rewrite Hz. reflexivity.
Qed.

(** C2: an open sample with no closure pending, taken [g] seconds after
    [last_blink_end]: for [g > 1.0] the word space is appended and the gap
    timer restarts, unless the transcript already ends with it; otherwise
    for [g > 0.8] the same holds for the letter space; otherwise nothing
    changes.  The word-space test comes first, and once a space was
    classified the following open samples of its class append nothing. *)
Theorem open_gap_classified (self : BlinkMorseCode) (face_landmarks : Landmarks) (t : Q) :
  eyes_closed self face_landmarks = false ->
  (blink_start_time self == 0)%Q ->
  let g := (t - last_blink_end self)%Q in
  let self' := observe self [face_landmarks] t in
  ((1.0 < g)%Q ->
     (endswith (morse_code self) "   " = false ->
        morse_code self' = morse_code self ++ "   " /\ last_blink_end self' = t) /\
     (endswith (morse_code self) "   " = true -> self' = self) /\
     (forall t' : Q, morse_code (observe self' [face_landmarks] t') = morse_code self')) /\
  ((0.8 < g)%Q /\ (g <= 1.0)%Q ->
     (endswith (morse_code self) " " = false ->
        morse_code self' = morse_code self ++ " " /\ last_blink_end self' = t) /\
     (endswith (morse_code self) " " = true -> self' = self) /\
     (forall t' : Q, (t' - last_blink_end self' <= 1.0)%Q ->
        morse_code (observe self' [face_landmarks] t') = morse_code self')) /\
  ((g <= 0.8)%Q -> self' = self).
Proof.
  intros Hopen Hidle g self'.
  assert (Hstep : self' = fst (snd (space_detection (at_instant t) (self, 0%nat)))).
  { apply observe_open_idle; assumption. }
  rewrite space_detection_run in Hstep. unfold at_instant in Hstep. fold g in Hstep.
  assert (Hquiet : forall s : BlinkMorseCode,
             blink_threshold s = blink_threshold self ->
             (blink_start_time s == 0)%Q ->
             endswith (morse_code s) " " = true ->
             forall t' : Q,
               (endswith (morse_code s) "   " = true \/ (t' - last_blink_end s <= 1.0)%Q) ->
               morse_code (observe s [face_landmarks] t') = morse_code s).
  { intros s Hthr Hs Hsp t' Hcase.
    rewrite observe_open_idle; [| unfold eyes_closed in *; rewrite Hthr; exact Hopen | exact Hs].
    rewrite space_detection_run. unfold at_instant. rewrite Hsp.
    destruct (Qltb 1.0 (t' - last_blink_end s)) eqn:Hw.
    - destruct Hcase as [Hthree | Hle].
      + rewrite Hthree. reflexivity.
      + apply Qltb_lt in Hw. exfalso. exact (Qlt_not_le _ _ Hw Hle).
    - destruct (Qltb 0.8 (t' - last_blink_end s)); reflexivity. }
  split; [| split].
  - intros Hg. apply Qltb_lt in Hg. rewrite Hg in Hstep.
    split; [| split].
    + intros He. rewrite He in Hstep. rewrite Hstep. split; reflexivity.
    + intros He. rewrite He in Hstep. exact Hstep.
    + intros t'. apply Hquiet.
      * destruct (endswith (morse_code self) "   "); rewrite Hstep; reflexivity.
      * destruct (endswith (morse_code self) "   "); rewrite Hstep; exact Hidle.
      * apply endswith_word_letter.
        destruct (endswith (morse_code self) "   ") eqn:He; rewrite Hstep; cbn.
        -- exact He.
        -- apply endswith_append.
      * left. destruct (endswith (morse_code self) "   ") eqn:He; rewrite Hstep; cbn.
        -- exact He.
        -- apply endswith_append.
  - intros [Hlo Hhi]. apply Qltb_lt in Hlo. apply Qltb_ge in Hhi.
    rewrite Hhi, Hlo in Hstep.
    split; [| split].
    + intros He. rewrite He in Hstep. rewrite Hstep. split; reflexivity.
    + intros He. rewrite He in Hstep. exact Hstep.
    + intros t' Ht'. apply Hquiet.
      * destruct (endswith (morse_code self) " "); rewrite Hstep; reflexivity.
      * destruct (endswith (morse_code self) " "); rewrite Hstep; exact Hidle.
      * destruct (endswith (morse_code self) " ") eqn:He; rewrite Hstep; cbn.
        -- exact He.
        -- apply endswith_append.
      * right. exact Ht'.
  - intros Hg.
    assert (Hw : Qltb 1.0 g = false).
    { apply Qltb_ge. apply Qle_trans with (1 := Hg). discriminate. }
    apply Qltb_ge in Hg. rewrite Hw, Hg in Hstep. exact Hstep.
Qed.

(** ** What a frame leaves alone *)

Lemma eyes_closed_threshold (s s' : BlinkMorseCode) (face_landmarks : Landmarks) :
  blink_threshold s = blink_threshold s' ->
  eyes_closed s face_landmarks = eyes_closed s' face_landmarks.
Proof. intros H. unfold eyes_closed. rewrite H. reflexivity. Qed.

Lemma space_detection_fields (clock : Clock) (st : BlinkMorseCode * nat) :
  let st' := snd (space_detection clock st) in
  blink_threshold (fst st') = blink_threshold (fst st) /\
  blink_start_time (fst st') = blink_start_time (fst st).
Proof.
  destruct st as [self n]. rewrite space_detection_run. cbn [fst].
  destruct (Qltb 1.0 _); [destruct (endswith _ "   ") | destruct (Qltb 0.8 _);
    [destruct (endswith _ " ")|]]; cbn; split; reflexivity.
Qed.

Lemma process_face_threshold (clock : Clock) (st : BlinkMorseCode * nat) (face_landmarks : Landmarks) :
  blink_threshold (fst (snd (process_face face_landmarks clock st))) = blink_threshold (fst st).
Proof.
  rewrite process_face_run.
  rewrite (proj1 (space_detection_fields clock _)).
  destruct st as [self n]. rewrite blink_detection_run. cbn [fst].
  destruct (_ && _); [destruct (Qeq_bool _ 0) | destruct (Qltb 0 _)]; reflexivity.
Qed.

Lemma for_each_face_cons (clock : Clock) (st : BlinkMorseCode * nat)
      (face_landmarks : Landmarks) (rest : list Landmarks) :
  for_each_face (face_landmarks :: rest) clock st =
  for_each_face rest clock (snd (process_face face_landmarks clock st)).
Proof.
  cbn [for_each_face]. unfold bind.
  destruct (process_face face_landmarks clock st) as [u st']. reflexivity.
Qed.

Lemma for_each_face_threshold (clock : Clock) (results : Results) (st : BlinkMorseCode * nat) :
  blink_threshold (fst (snd (for_each_face results clock st))) = blink_threshold (fst st).
Proof.
  revert st. induction results as [|face rest IH]; intros st.
  - reflexivity.
  - rewrite for_each_face_cons, IH. apply process_face_threshold.
Qed.

Lemma process_frame_threshold (self : BlinkMorseCode) (results : Results) (clock : Clock) :
  blink_threshold (process_frame self results clock) = blink_threshold self.
Proof. unfold process_frame. apply for_each_face_threshold. Qed.

(** ** A closure from its first closed sample to the first open one *)








(** ** Closed samples and frames without a face *)

(** A closed sample changes the transcript the way the space detection
    alone does at that instant. *)
Lemma observe_closed (self : BlinkMorseCode) (face_landmarks : Landmarks) (t : Q) :
  eyes_closed self face_landmarks = true ->
  morse_code (observe self [face_landmarks] t) =
  morse_code (fst (snd (space_detection (at_instant t) (self, 0%nat)))).
Proof.
  intros Hclosed.
  unfold observe. rewrite process_frame_one, process_face_run, blink_detection_run.
  unfold eyes_closed in Hclosed. rewrite Hclosed.
  destruct (Qeq_bool (blink_start_time self) 0); cbn [snd];
    rewrite !space_detection_run; unfold at_instant;
    cbn [last_blink_end morse_code];
    destruct (Qltb 1.0 _); [destruct (endswith _ "   ") | destruct (Qltb 0.8 _);
      [destruct (endswith _ " ")|] | destruct (endswith _ "   ") | destruct (Qltb 0.8 _);
      [destruct (endswith _ " ")|]]; reflexivity.
Qed.

(** C3, as the code has it: a closed sample appends no dot and no dash, but
    the space detection runs on it as on any sample with a face: [g]
    seconds after [last_blink_end] it appends the word space for [g > 1.0]
    and the letter space for [0.8 < g <= 1.0], unless the transcript
    already ends with that space. *)
Theorem closed_sample_spaces (self : BlinkMorseCode) (face_landmarks : Landmarks) (t : Q) :
  eyes_closed self face_landmarks = true ->
  let g := (t - last_blink_end self)%Q in
  let code' := morse_code (observe self [face_landmarks] t) in
  ((1.0 < g)%Q ->
     code' = if endswith (morse_code self) "   " then morse_code self
             else morse_code self ++ "   ") /\
  ((0.8 < g)%Q /\ (g <= 1.0)%Q ->
     code' = if endswith (morse_code self) " " then morse_code self
             else morse_code self ++ " ") /\
  ((g <= 0.8)%Q -> code' = morse_code self).
Proof.
  intros Hclosed g code'.
  assert (Hstep : code' = morse_code (fst (snd (space_detection (at_instant t) (self, 0%nat))))).
  { apply observe_closed. exact Hclosed. }
  rewrite space_detection_run in Hstep. unfold at_instant in Hstep. fold g in Hstep.
  split; [| split].
  - intros Hg. apply Qltb_lt in Hg. rewrite Hg in Hstep.
    rewrite Hstep. destruct (endswith (morse_code self) "   "); reflexivity.
  - intros [Hlo Hhi]. apply Qltb_lt in Hlo. apply Qltb_ge in Hhi.
    rewrite Hhi, Hlo in Hstep.
    rewrite Hstep. destruct (endswith (morse_code self) " "); reflexivity.
  - intros Hg.
    assert (Hw : Qltb 1.0 g = false).
    { apply Qltb_ge. apply Qle_trans with (1 := Hg). discriminate. }
    apply Qltb_ge in Hg. rewrite Hw, Hg in Hstep. exact Hstep.
Qed.

(** C3 fails as stated: after a dot ended at 100.3 the eyes close at 100.4;
    the closed sample at 101.15 comes 0.85 s after [last_blink_end] and
    appends a letter space. *)
Lemma closed_sample_appends_space :
  let before := run (__init__ default_blink_threshold (at_instant 100))
                    [([closed_face], 100.1%Q); ([open_face], 100.3%Q);
                     ([closed_face], 100.4%Q)] in
  eyes_closed before closed_face = true /\
  morse_code before = "." /\
  morse_code (observe before [closed_face] 101.15) = ". ".
Proof. vm_compute. repeat split. Qed.

Lemma process_frame_no_face (self : BlinkMorseCode) (clock : Clock) :
  process_frame self [] clock = self.
Proof. reflexivity. Qed.

(** C10 fails as stated: the space detection sits inside the loop over the
    detected faces, so a frame without landmarks appends nothing, however
    late it comes. *)
Lemma no_face_no_space :
  ~ (exists (self : BlinkMorseCode) (clock : Clock),
        morse_code (process_frame self [] clock) <> morse_code self).
Proof. intros (self & clock & H). apply H. reflexivity. Qed.

(** C10, as the code has it: a frame without landmarks leaves [self] as it
    is, so the gap that the next frame with a face measures includes it;
    with open eyes only, and no closure at all, that frame appends the word
    space to the empty transcript once more than 1.0 s have passed since
    the session started. *)
Theorem space_without_closure
    (threshold start : Q) (face_landmarks : Landmarks) (t_no_face t : Q) :
  eyes_closed (__init__ threshold (at_instant start)) face_landmarks = false ->
  (1.0 < t - start)%Q ->
  (forall (self : BlinkMorseCode) (clock : Clock), process_frame self [] clock = self) /\
  morse_code (run (__init__ threshold (at_instant start)) [([], t_no_face); ([face_landmarks], t)]) = "   ".
Proof.
  intros Hopen Hgap. split; [exact process_frame_no_face |].
  unfold run; cbn [fold_left fst snd]. unfold observe at 2.
  rewrite process_frame_no_face.
  rewrite observe_open_idle; [| exact Hopen | reflexivity].
  rewrite space_detection_run. unfold at_instant. cbn [__init__ last_blink_end morse_code].
  apply Qltb_lt in Hgap. rewrite Hgap. reflexivity.
Qed.

(** ** The transcript only grows, over a fixed alphabet *)

Lemma all_chars_append (p : ascii -> bool) (a b : string) :
  all_chars p (a ++ b) = all_chars p a && all_chars p b.
Proof.
  induction a as [|c a IH]; cbn; [reflexivity |].
  rewrite IH. apply andb_assoc.
Qed.

Lemma extends_refl (s : string) : extends s s.
Proof. exists "". split; [symmetry; apply append_empty_r | reflexivity]. Qed.

Lemma extends_add (s suffix : string) :
  all_chars transcript_char suffix = true -> extends s (s ++ suffix).
Proof. intros H. exists suffix. split; [reflexivity | exact H]. Qed.

Lemma extends_trans (a b c : string) : extends a b -> extends b c -> extends a c.
Proof.
  intros (x & -> & Hx) (y & -> & Hy). exists (x ++ y). split.
  - apply append_assoc.
  - rewrite all_chars_append, Hx, Hy. reflexivity.
Qed.

Lemma space_detection_extends (clock : Clock) (st : BlinkMorseCode * nat) :
  extends (morse_code (fst st)) (morse_code (fst (snd (space_detection clock st)))).
Proof.
  destruct st as [self n]. rewrite space_detection_run. cbn [fst].
  destruct (Qltb 1.0 _); [destruct (endswith _ "   ") | destruct (Qltb 0.8 _);
    [destruct (endswith _ " ")|]]; cbn [fst snd with_space morse_code];
    first [apply extends_refl | apply extends_add; reflexivity].
Qed.

Lemma blink_detection_extends (clock : Clock) (st : BlinkMorseCode * nat) (left_ear right_ear : Q) :
  extends (morse_code (fst st))
          (morse_code (fst (snd (blink_detection left_ear right_ear clock st)))).
Proof.
  destruct st as [self n]. rewrite blink_detection_run. cbn [fst].
  destruct (_ && _); [destruct (Qeq_bool _ 0) | destruct (Qltb 0 _)];
    cbn [fst snd morse_code]; try apply extends_refl.
  apply extends_add. unfold blink_symbol.
  destruct (Qltb _ 0.4); [reflexivity |]. destruct (Qltb _ 0.8); reflexivity.
Qed.

(** C9: whatever the frame holds and whatever the clock reads, the
    transcript after [process_frame] is the transcript before it followed
    by characters among ".", "-" and " ". *)
Theorem transcript_append_only (self : BlinkMorseCode) (results : Results) (clock : Clock) :
  exists suffix : string,
    morse_code (process_frame self results clock) = morse_code self ++ suffix /\
    all_chars transcript_char suffix = true.
Proof.
  unfold process_frame.
  change (morse_code self) with (morse_code (fst (self, 0%nat))).
  generalize (self, 0%nat) as st.
  induction results as [|face rest IH]; intros st.
  - apply extends_refl.
  - rewrite for_each_face_cons.
    eapply extends_trans; [| apply IH].
    rewrite process_face_run.
    eapply extends_trans; [apply blink_detection_extends | apply space_detection_extends].
Qed.

(** ** Runs of spaces in the transcript *)

Example space_runs_ok_yes : space_runs_ok ". .   -    ." = true.
Proof. reflexivity. Qed.

Example space_runs_ok_no : space_runs_ok ".  ." = false /\ space_runs_ok ".     ." = false.
Proof. split; reflexivity. Qed.

Lemma run_scan_append (state : option nat) (a b : string) :
  run_scan state (a ++ b) = run_scan (run_scan state a) b.
Proof. revert state. induction a as [|c a IH]; intros state; cbn; [reflexivity | apply IH]. Qed.

Lemma run_scan_dead (s : string) : run_scan None s = None.
Proof. induction s as [|c s IH]; cbn; [reflexivity | exact IH]. Qed.

(** A transcript that does not end with a space leaves the scan outside of
    any run. *)
Lemma run_scan_no_space (s : string) (r0 r : nat) :
  run_scan (Some r0) s = Some r ->
  endswith s " " = false ->
  r = 0%nat \/ (s = "" /\ r = r0).
Proof.
  revert r0. induction s as [|c s IH]; intros r0 Hscan Hend.
  - cbn in Hscan. injection Hscan as <-. right. split; reflexivity.
  - rewrite endswith_unfold in Hend. apply orb_false_iff in Hend as [Hne Hend].
    cbn [run_scan] in Hscan.
    destruct (run_step (Some r0) c) as [r1|] eqn:Hstep;
      [| rewrite run_scan_dead in Hscan; discriminate Hscan].
    destruct (IH r1 Hscan Hend) as [-> | [-> ->]]; [left; reflexivity |].
    left. cbn in Hscan. cbn [run_step] in Hstep.
    destruct (c =? " ")%char eqn:Hc.
    + apply Ascii.eqb_eq in Hc. subst c. discriminate Hne.
    + destruct (r0 =? 2)%nat; [discriminate Hstep | now injection Hstep as <-].
Qed.

(** One that does not end with three spaces leaves it at most two spaces
    into a run, or is itself a short run. *)
Lemma run_scan_no_word_space (s : string) (r0 r : nat) :
  run_scan (Some r0) s = Some r ->
  endswith s "   " = false ->
  (r <= 2)%nat \/ (all_chars (fun c => (c =? " ")%char) s = true /\
                   (length s <= 2)%nat /\ r = (r0 + length s)%nat).
Proof.
  revert r0. induction s as [|c s IH]; intros r0 Hscan Hend.
  - cbn in Hscan. injection Hscan as <-. right. cbn. repeat split; lia.
  - rewrite endswith_unfold in Hend. apply orb_false_iff in Hend as [Hne Hend].
    cbn [run_scan] in Hscan.
    destruct (run_step (Some r0) c) as [r1|] eqn:Hstep;
      [| rewrite run_scan_dead in Hscan; discriminate Hscan].
    destruct (IH r1 Hscan Hend) as [Hle | (Hall & Hlen & Hr)]; [left; exact Hle |].
    cbn [run_step] in Hstep.
    destruct (c =? " ")%char eqn:Hc.
    + apply Ascii.eqb_eq in Hc. subst c.
      destruct (r0 <? 4)%nat; [| discriminate Hstep]. injection Hstep as <-.
      right. cbn [all_chars length]. rewrite Hall.
      assert (Hshort : (length s <= 1)%nat).
      { destruct s as [|c1 [|c2 [|c3 s]]]; cbn in *; try lia.
        apply andb_true_iff in Hall as [H1 Hall]. apply andb_true_iff in Hall as [H2 _].
        apply Ascii.eqb_eq in H1, H2. subst c1 c2. discriminate Hne. }
      repeat split; [lia | lia].
    + destruct (r0 =? 2)%nat; [discriminate Hstep |]. injection Hstep as <-.
      left. lia.
Qed.

Lemma space_runs_ok_symbol (s : string) (c : ascii) :
  space_runs_ok s = true -> (c =? " ")%char = false ->
  space_runs_ok (s ++ String c "") = true.
Proof.
  unfold space_runs_ok. intros Hok Hc. rewrite run_scan_append.
  destruct (run_scan (Some 0%nat) s) as [r|]; [| discriminate Hok].
  cbn. rewrite Hc. apply negb_true_iff in Hok. rewrite Hok. reflexivity.
Qed.

Lemma space_runs_ok_letter_space (s : string) :
  space_runs_ok s = true -> endswith s " " = false ->
  space_runs_ok (s ++ " ") = true.
Proof.
  unfold space_runs_ok. intros Hok Hend. rewrite run_scan_append.
  destruct (run_scan (Some 0%nat) s) as [r|] eqn:Hscan; [| discriminate Hok].
  destruct (run_scan_no_space s 0 r Hscan Hend) as [-> | [_ ->]]; reflexivity.
Qed.

Lemma space_runs_ok_word_space (s : string) :
  space_runs_ok s = true -> endswith s "   " = false ->
  space_runs_ok (s ++ "   ") = true.
Proof.
  unfold space_runs_ok. intros Hok Hend. rewrite run_scan_append.
  destruct (run_scan (Some 0%nat) s) as [r|] eqn:Hscan; [| discriminate Hok].
  apply negb_true_iff, Nat.eqb_neq in Hok.
  assert (Hr : r = 0%nat \/ r = 1%nat).
  { destruct (run_scan_no_word_space s 0 r Hscan Hend) as [Hle | (_ & Hlen & Hr)]; lia. }
  destruct Hr as [-> | ->]; reflexivity.
Qed.

Lemma space_detection_runs_ok (clock : Clock) (st : BlinkMorseCode * nat) :
  space_runs_ok (morse_code (fst st)) = true ->
  space_runs_ok (morse_code (fst (snd (space_detection clock st)))) = true.
Proof.
  destruct st as [self n]. rewrite space_detection_run. cbn [fst]. intros Hok.
  destruct (Qltb 1.0 _).
  - destruct (endswith _ "   ") eqn:He; cbn [fst snd with_space morse_code];
      [exact Hok | apply space_runs_ok_word_space; assumption].
  - destruct (Qltb 0.8 _); [| exact Hok].
    destruct (endswith _ " ") eqn:He; cbn [fst snd with_space morse_code];
      [exact Hok | apply space_runs_ok_letter_space; assumption].
Qed.

Lemma blink_detection_runs_ok (clock : Clock) (st : BlinkMorseCode * nat) (left_ear right_ear : Q) :
  space_runs_ok (morse_code (fst st)) = true ->
  space_runs_ok (morse_code (fst (snd (blink_detection left_ear right_ear clock st)))) = true.
Proof.
  destruct st as [self n]. rewrite blink_detection_run. cbn [fst]. intros Hok.
  destruct (_ && _); [destruct (Qeq_bool _ 0) | destruct (Qltb 0 _)];
    cbn [fst snd morse_code]; try exact Hok.
  unfold blink_symbol.
  destruct (Qltb _ 0.4); [apply space_runs_ok_symbol; [exact Hok | reflexivity] |].
  destruct (Qltb _ 0.8); [apply space_runs_ok_symbol; [exact Hok | reflexivity] |].
  rewrite append_empty_r. exact Hok.
Qed.

(** A sample with a face, taken while no closure is pending and the
    transcript ends with the word space, appends nothing. *)
Lemma observe_after_word_space (self : BlinkMorseCode) (face_landmarks : Landmarks) (t : Q) :
  (blink_start_time self == 0)%Q ->
  endswith (morse_code self) "   " = true ->
  morse_code (observe self [face_landmarks] t) = morse_code self.
Proof.
  intros Hidle Hend.
  assert (Hspace : morse_code (fst (snd (space_detection (at_instant t) (self, 0%nat))))
                   = morse_code self).
  { rewrite space_detection_run. rewrite Hend, (endswith_word_letter _ Hend).
    destruct (Qltb 1.0 _); [reflexivity |]. destruct (Qltb 0.8 _); reflexivity. }
  destruct (eyes_closed self face_landmarks) eqn:Hface.
  - rewrite observe_closed by exact Hface. exact Hspace.
  - rewrite observe_open_idle by assumption. exact Hspace.
Qed.

(** C4, as the code has it: each space is appended behind a guard (the
    letter space only when the transcript does not end with a space, the
    word space only when it does not end with three), so every frame keeps
    the runs of spaces at length 1, 3 or 4: no letter space follows a
    space, no word space follows a word space, but a word space does
    follow a letter space.  Once the transcript ends with the word space,
    further samples append nothing until the next closure. *)
Theorem space_runs_preserved (self : BlinkMorseCode) :
  space_runs_ok (morse_code self) = true ->
  (forall (results : Results) (clock : Clock),
      space_runs_ok (morse_code (process_frame self results clock)) = true) /\
  (forall (face_landmarks : Landmarks) (t : Q),
      (blink_start_time self == 0)%Q ->
      endswith (morse_code self) "   " = true ->
      morse_code (observe self [face_landmarks] t) = morse_code self).
Proof.
  intros Hok. split.
  - intros results clock. unfold process_frame.
    change (morse_code self) with (morse_code (fst (self, 0%nat))) in Hok.
    revert Hok. generalize (self, 0%nat) as st.
    induction results as [|face rest IH]; intros st Hok.
    + exact Hok.
    + rewrite for_each_face_cons. apply IH.
      rewrite process_face_run.
      apply space_detection_runs_ok, blink_detection_runs_ok, Hok.
  - intros face t. apply observe_after_word_space.
Qed.

(** C4 fails as stated: 0.85 s after a dot the open sample appends the
    letter space; the open samples go on, and the one 1.05 s later appends
    the word space behind it. *)
Lemma letter_space_then_word_space :
  let emitted := run (__init__ default_blink_threshold (at_instant 100))
                     [([closed_face], 100.1%Q); ([open_face], 100.3%Q);
                      ([open_face], 101.15%Q)] in
  morse_code emitted = ". " /\
  morse_code (observe emitted [open_face] 102.2) = ".    ".
Proof. vm_compute. split; reflexivity. Qed.

(** ** The decoder *)

(** *** Stripping *)

Lemma rstrip_append_space (s : string) : rstrip (s ++ " ") = rstrip s.
Proof.
  induction s as [|c s IH]; [reflexivity |].
  cbn [append rstrip]. rewrite IH. reflexivity.
Qed.

Lemma lstrip_append_space (s : string) :
  lstrip (s ++ " ") = lstrip s ++ " " \/ (lstrip (s ++ " ") = "" /\ lstrip s = "").
Proof.
  induction s as [|c s IH].
  - right. split; reflexivity.
  - cbn [append lstrip]. destruct (isspace c); [exact IH | left; reflexivity].
Qed.

Lemma strip_append_space (s : string) : strip (s ++ " ") = strip s.
Proof.
  unfold strip. destruct (lstrip_append_space s) as [-> | [-> ->]].
  - apply rstrip_append_space.
  - reflexivity.
Qed.

(** *** The loops as joins *)

Lemma concat_cons (sep x : string) (l : list string) :
  l <> [] -> concat sep (x :: l) = x ++ sep ++ concat sep l.
Proof. destruct l; [intros H; now destruct H | reflexivity]. Qed.

Lemma concat_empty_cons (x : string) (l : list string) :
  concat "" (x :: l) = x ++ concat "" l.
Proof.
  destruct l as [|y l]; [cbn; symmetry; apply append_empty_r | reflexivity].
Qed.

Lemma decode_letters_concat (letters : list string) (decoded : string) :
  decode_letters decoded letters = decoded ++ concat "" (map decode_letter letters).
Proof.
  revert decoded. unfold decode_letters.
  induction letters as [|letter letters IH]; intros decoded; cbn [fold_left map].
  - symmetry. apply append_empty_r.
  - rewrite IH, concat_empty_cons, append_assoc. reflexivity.
Qed.

Lemma decode_words_concat (words : list string) (decoded : string) :
  words <> [] ->
  decode_words decoded words = decoded ++ join_words words ++ " ".
Proof.
  revert decoded. unfold decode_words, join_words.
  induction words as [|word words IH]; intros decoded Hne; [now destruct Hne |].
  cbn [fold_left map]. fold (decode_letters decoded (split_ws word)).
  rewrite decode_letters_concat. fold (join_letters word).
  destruct words as [|word2 words].
  - cbn. rewrite append_assoc. reflexivity.
  - rewrite IH by discriminate.
    rewrite concat_cons by discriminate.
    rewrite !append_assoc. reflexivity.
Qed.

Lemma split_scan_not_nil (sep : string) (skip : nat) (s : string) :
  split_scan sep skip s <> [].
Proof.
  revert skip. induction s as [|c s IH]; intros skip; cbn [split_scan]; [discriminate |].
  destruct skip; [| apply IH].
  destruct (prefix sep (String c s)); [discriminate |].
  unfold cons_head. destruct (split_scan sep 0 s); discriminate.
Qed.

Lemma decode_morse_code_joined (morse : string) :
  decode_morse_code morse = Returns (decode_joined morse).
Proof.
  unfold decode_morse_code, decode_joined, split. cbn [is_empty].
  rewrite decode_words_concat by apply split_scan_not_nil.
  cbn [append]. rewrite strip_append_space. reflexivity.
Qed.

(** C6: [decode_morse_code] returns on every string, whatever its
    characters, and never raises; on the empty transcript it returns the
    empty text. *)
Theorem decode_total :
  (forall morse : string, exists text : string, decode_morse_code morse = Returns text) /\
  decode_morse_code "" = Returns "".
Proof.
  split; [| reflexivity].
  intros morse. unfold decode_morse_code, split. cbn [is_empty].
  eexists. reflexivity.
Qed.

(** *** Placeholders for the letters that are not in the table *)

Lemma count_char_append (c : ascii) (a b : string) :
  count_char c (a ++ b) = (count_char c a + count_char c b)%nat.
Proof. induction a as [|x a IH]; cbn; [reflexivity | rewrite IH; lia]. Qed.

Lemma eqb_not_space (a c : ascii) :
  isspace c = false -> isspace a = true -> (a =? c)%char = false.
Proof.
  intros Hc Ha. destruct (a =? c)%char eqn:E; [| reflexivity].
  apply Ascii.eqb_eq in E. subst a. rewrite Ha in Hc. discriminate Hc.
Qed.

Lemma count_char_lstrip (c : ascii) (s : string) :
  isspace c = false -> count_char c (lstrip s) = count_char c s.
Proof.
  intros Hc. induction s as [|a s IH]; [reflexivity |].
  cbn [lstrip]. destruct (isspace a) eqn:Ha; [| reflexivity].
  cbn [count_char]. rewrite (eqb_not_space a c Hc Ha). exact IH.
Qed.

Lemma rstrip_empty_count (c : ascii) (s : string) :
  isspace c = false -> rstrip s = "" -> count_char c s = 0%nat.
Proof.
  intros Hc. induction s as [|a s IH]; [reflexivity |].
  cbn [rstrip]. destruct (isspace a) eqn:Ha; cbn [andb]; [| discriminate].
  destruct (rstrip s) eqn:Hr; cbn [is_empty]; [| discriminate].
  intros _. cbn [count_char]. rewrite (eqb_not_space a c Hc Ha), IH; reflexivity.
Qed.

Lemma count_char_rstrip (c : ascii) (s : string) :
  isspace c = false -> count_char c (rstrip s) = count_char c s.
Proof.
  intros Hc. induction s as [|a s IH]; [reflexivity |].
  cbn [rstrip].
  destruct (isspace a && is_empty (rstrip s)) eqn:E.
  - apply andb_true_iff in E as [Ha He].
    cbn [count_char]. rewrite (eqb_not_space a c Hc Ha).
    rewrite (rstrip_empty_count c s Hc); [reflexivity |].
    destruct (rstrip s); [reflexivity | discriminate He].
  - cbn [count_char]. rewrite IH. reflexivity.
Qed.

Lemma count_char_strip (c : ascii) (s : string) :
  isspace c = false -> count_char c (strip s) = count_char c s.
Proof.
  intros Hc. unfold strip. rewrite count_char_rstrip, count_char_lstrip by exact Hc.
  reflexivity.
Qed.

Lemma count_char_concat (c : ascii) (sep : string) (l : list string) :
  count_char c sep = 0%nat ->
  count_char c (concat sep l) = list_sum (map (count_char c) l).
Proof.
  intros Hsep. induction l as [|x l IH]; [reflexivity |].
  destruct l as [|y l].
  - cbn. lia.
  - rewrite concat_cons by discriminate.
    rewrite !count_char_append, Hsep, IH. cbn. lia.
Qed.

Lemma get_unknown (d : list (string * string)) (key default : string) :
  existsb (fun k => k =? key) (keys d) = false -> get d key default = default.
Proof.
  induction d as [|[k v] d IH]; cbn; [reflexivity |].
  intros H. apply orb_false_iff in H as [Hk Hrest]. rewrite Hk. apply IH, Hrest.
Qed.

Lemma get_known (d : list (string * string)) (key default : string) :
  existsb (fun k => k =? key) (keys d) = true -> In (get d key default) (values d).
Proof.
  induction d as [|[k v] d IH]; cbn; [discriminate |].
  destruct (k =? key); cbn [orb]; intros H; [left; reflexivity | right; apply IH, H].
Qed.

Lemma values_without_lozenge :
  Forall (fun v => count_char lozenge_lead v = 0%nat) (values morse_code_map).
Proof. repeat constructor. Qed.

Lemma count_decode_letter (letter : string) :
  count_char lozenge_lead (decode_letter letter) = if in_table letter then 0%nat else 1%nat.
Proof.
  unfold decode_letter, in_table. destruct (existsb _ _) eqn:E.
  - apply (get_known _ _ unknown_letter) in E.
    exact (proj1 (Forall_forall _ _) values_without_lozenge _ E).
  - rewrite get_unknown by exact E. reflexivity.
Qed.

Lemma list_sum_cons (n : nat) (l : list nat) : list_sum (n :: l) = (n + list_sum l)%nat.
Proof. reflexivity. Qed.

Lemma count_decoded_letters (letters : list string) :
  list_sum (map (count_char lozenge_lead) (map decode_letter letters)) =
  List.length (unknown_letters letters).
Proof.
  unfold unknown_letters.
  induction letters as [|letter letters IH]; [reflexivity |].
  cbn [map filter]. rewrite list_sum_cons, count_decode_letter, IH.
  destruct (in_table letter); reflexivity.
Qed.

Lemma count_join_letters (word : string) :
  count_char lozenge_lead (join_letters word) =
  List.length (unknown_letters (split_ws word)).
Proof.
  unfold join_letters. rewrite count_char_concat by reflexivity.
  apply count_decoded_letters.
Qed.

Lemma count_join_words (words : list string) :
  count_char lozenge_lead (join_words words) =
  List.length (unknown_letters (flat_map split_ws words)).
Proof.
  unfold join_words. rewrite count_char_concat by reflexivity.
  unfold unknown_letters.
  induction words as [|word words IH]; [reflexivity |].
  cbn [map flat_map].
  rewrite list_sum_cons, filter_app, List.length_app, IH, count_join_letters.
  reflexivity.
Qed.

Lemma cons_head_not_empty (c : ascii) (pieces : list string) :
  Forall (fun w => w <> "") pieces -> Forall (fun w => w <> "") (cons_head c pieces).
Proof.
  intros H. destruct pieces as [|w ws]; cbn.
  - constructor; [discriminate | constructor].
  - inversion H; subst. constructor; [discriminate | assumption].
Qed.

Lemma split_ws_not_empty (s : string) : Forall (fun letter => letter <> "") (split_ws s).
Proof.
  induction s as [|c s IH]; [constructor |].
  cbn [split_ws]. destruct (isspace c); [exact IH |].
  destruct s as [|c' s']; [constructor; [discriminate | constructor] |].
  destruct (isspace c').
  - constructor; [discriminate | exact IH].
  - apply cons_head_not_empty, IH.
Qed.

(** C7 fails as stated: in the transcript of a letter space followed by a
    word space, the second word starts with a space; cut at single spaces
    it has an empty letter, which is not in the table, and the result
    carries no placeholder for it. *)
Lemma empty_letter_dropped :
  split ".    ." "   " = Returns ["."; " ."] /\
  single_space_letters " ." = [""; "."] /\
  in_table "" = false /\
  decode_morse_code ".    ." = Returns "E E" /\
  count_char lozenge_lead "E E" = 0%nat.
Proof. repeat split. Qed.

(** *** The reference encoding and the round trip *)

Example encode_hi_there :
  encode_reference ["HI"; "THERE"] = ".... ..   - .... . .-. ." /\
  decode_morse_code (encode_reference ["HI"; "THERE"]) = Returns "HI THERE".
Proof. split; reflexivity. Qed.

Lemma covered_letter (c : ascii) :
  covered c = true ->
  decode_letter (encode_letter c) = String c "" /\
  solid (encode_letter c) = true /\
  not_space c = true.
Proof.
  destruct c as [[] [] [] [] [] [] [] []]; vm_compute; intros H;
    first [discriminate H | repeat split].
Qed.

Lemma solid_starts (s : string) : solid s = true -> starts_solid s = true.
Proof.
  destruct s as [|c s]; [discriminate |]. unfold solid. cbn.
  intros H. apply andb_true_iff in H. exact (proj1 H).
Qed.

Lemma starts_solid_append (a b : string) :
  starts_solid a = true -> starts_solid (a ++ b) = true.
Proof. destruct a; [discriminate | intros H; exact H]. Qed.

Lemma tight_solid_then (a rest : string) :
  all_chars not_space a = true -> tight (a ++ rest) = tight rest.
Proof.
  induction a as [|c a IH]; [reflexivity |].
  cbn [all_chars append tight]. intros H. apply andb_true_iff in H as [Hc Ha].
  rewrite Hc, IH by exact Ha. reflexivity.
Qed.

Lemma concat_solid_starts (l : list string) :
  l <> [] -> Forall (fun s => solid s = true) l -> starts_solid (concat " " l) = true.
Proof.
  intros Hne Hall. destruct l as [|a l]; [now destruct Hne |].
  inversion Hall as [|? ? Ha Hl]; subst.
  destruct l as [|b l]; [apply solid_starts, Ha |].
  rewrite concat_cons by discriminate. apply starts_solid_append, solid_starts, Ha.
Qed.

Lemma concat_solid_tight (l : list string) :
  Forall (fun s => solid s = true) l -> tight (concat " " l) = true.
Proof.
  induction l as [|a l IH]; intros Hall; [reflexivity |].
  inversion Hall as [|? ? Ha Hl]; subst.
  apply andb_true_iff in Ha as [Hne Hchars].
  destruct l as [|b l].
  - cbn [concat]. rewrite <- (append_empty_r a). rewrite tight_solid_then by exact Hchars.
    reflexivity.
  - rewrite concat_cons by discriminate. rewrite tight_solid_then by exact Hchars.
    cbn [append tight]. rewrite (IH Hl).
    rewrite (concat_solid_starts (b :: l)) by (discriminate || exact Hl). reflexivity.
Qed.

(** [split()] gives back the pieces of a single-space join of solid
    strings. *)
Lemma split_ws_solid_then (a rest : string) :
  solid a = true -> split_ws (a ++ String " " rest) = a :: split_ws rest.
Proof.
  induction a as [|c a IH]; [discriminate |].
  unfold solid. cbn [is_empty negb andb all_chars]. intros H.
  apply andb_true_iff in H as [Hc Ha].
  cbn [append split_ws]. unfold not_space in Hc. apply negb_true_iff in Hc. rewrite Hc.
  destruct a as [|c' a].
  - reflexivity.
  - cbn [append]. cbn [all_chars] in Ha.
    pose proof Ha as Ha'. apply andb_true_iff in Ha' as [Hc' _].
    unfold not_space in Hc'. apply negb_true_iff in Hc'. rewrite Hc'.
    change (String c' (a ++ String " " rest)) with (String c' a ++ String " " rest).
    rewrite IH; [reflexivity |]. unfold solid. cbn [is_empty negb andb]. exact Ha.
Qed.

Lemma split_ws_solid (a : string) : solid a = true -> split_ws a = [a].
Proof.
  induction a as [|c a IH]; [discriminate |].
  unfold solid. cbn [is_empty negb andb all_chars]. intros H.
  apply andb_true_iff in H as [Hc Ha].
  cbn [split_ws]. unfold not_space in Hc. apply negb_true_iff in Hc. rewrite Hc.
  destruct a as [|c' a]; [reflexivity |].
  pose proof Ha as Ha'. cbn [all_chars] in Ha'. apply andb_true_iff in Ha' as [Hc' _].
  unfold not_space in Hc'. apply negb_true_iff in Hc'. rewrite Hc'.
  rewrite IH; [reflexivity |]. unfold solid. cbn [is_empty negb andb]. exact Ha.
Qed.

Lemma split_ws_concat (l : list string) :
  Forall (fun s => solid s = true) l -> split_ws (concat " " l) = l.
Proof.
  induction l as [|a l IH]; intros Hall; [reflexivity |].
  inversion Hall as [|? ? Ha Hl]; subst.
  destruct l as [|b l]; [apply split_ws_solid, Ha |].
  rewrite concat_cons by discriminate. cbn [append].
  rewrite split_ws_solid_then by exact Ha. rewrite (IH Hl). reflexivity.
Qed.

Lemma lstrip_starts_solid (s : string) : starts_solid s = true -> lstrip s = s.
Proof.
  destruct s as [|c s]; [discriminate |]. cbn. unfold not_space.
  intros H. apply negb_true_iff in H. rewrite H. reflexivity.
Qed.

Lemma starts_solid_not_empty (s : string) : starts_solid s = true -> is_empty s = false.
Proof. destruct s; [discriminate | reflexivity]. Qed.

Lemma rstrip_tight (s : string) : tight s = true -> rstrip s = s.
Proof.
  induction s as [|c s IH]; [reflexivity |].
  cbn [tight rstrip]. intros H. apply andb_true_iff in H as [Hc Hs].
  rewrite (IH Hs).
  destruct (isspace c) eqn:Ec; [| reflexivity].
  unfold not_space in Hc. rewrite Ec in Hc. cbn in Hc.
  rewrite (starts_solid_not_empty s Hc). reflexivity.
Qed.

Lemma is_empty_append (a b : string) : is_empty b = false -> is_empty (a ++ b) = false.
Proof. destruct a; [intros H; exact H | reflexivity]. Qed.

Lemma rstrip_append (a b : string) :
  is_empty (rstrip b) = false -> rstrip (a ++ b) = a ++ rstrip b.
Proof.
  intros Hb. induction a as [|c a IH]; [reflexivity |].
  cbn [append rstrip]. rewrite IH, (is_empty_append a _ Hb), andb_false_r. reflexivity.
Qed.

Lemma prefix_empty (s : string) : prefix "" s = true.
Proof. destruct s; reflexivity. Qed.

Lemma not_space_not_blank (c : ascii) : not_space c = true -> " "%char <> c.
Proof. intros H E. subst c. discriminate H. Qed.

(** The word separator does not start at a blank that stands alone. *)
Lemma prefix_word_space_tight (c : ascii) (s x : string) :
  tight (String c s) = true -> prefix "   " (String c (s ++ x)) = false.
Proof.
  cbn [tight]. intros H. apply andb_true_iff in H as [Hc _].
  cbn [prefix]. destruct (ascii_dec " " c) as [E|E]; [| reflexivity].
  subst c. cbn in Hc.
  destruct s as [|c' s]; [discriminate Hc |]. cbn [append prefix].
  destruct (ascii_dec " " c') as [E'|E']; [| reflexivity].
  exfalso. exact (not_space_not_blank c' Hc E').
Qed.

Lemma tight_tail (c : ascii) (s : string) : tight (String c s) = true -> tight s = true.
Proof. cbn [tight]. intros H. apply andb_true_iff in H. exact (proj2 H). Qed.

Lemma split_scan_tight_then (w rest : string) :
  tight w = true ->
  split_scan "   " 0 (w ++ "   " ++ rest) = w :: split_scan "   " 0 rest.
Proof.
  induction w as [|c w IH]; intros Hw.
  - cbn. rewrite prefix_empty. reflexivity.
  - change (String c w ++ "   " ++ rest) with (String c (w ++ "   " ++ rest)).
    cbn [split_scan]. rewrite (prefix_word_space_tight c w _ Hw).
    rewrite (IH (tight_tail c w Hw)). reflexivity.
Qed.

Lemma split_scan_tight (w : string) : tight w = true -> split_scan "   " 0 w = [w].
Proof.
  induction w as [|c w IH]; intros Hw; [reflexivity |].
  cbn [split_scan].
  rewrite <- (append_empty_r w) at 1. rewrite (prefix_word_space_tight c w "" Hw).
  rewrite (IH (tight_tail c w Hw)). reflexivity.
Qed.

(** [strip] leaves a join of such words with the word separator alone, and
    [split] gives the words back. *)
Lemma concat_words_shape (ms : list string) :
  ms <> [] -> Forall morse_word ms ->
  starts_solid (concat "   " ms) = true /\
  rstrip (concat "   " ms) = concat "   " ms /\
  split_scan "   " 0 (concat "   " ms) = ms.
Proof.
  induction ms as [|m ms IH]; intros Hne Hall; [now destruct Hne |].
  inversion Hall as [|? ? [Htight Hstart] Hms]; subst.
  destruct ms as [|m2 ms].
  - cbn [concat]. repeat split;
      [exact Hstart | apply rstrip_tight, Htight | apply split_scan_tight, Htight].
  - destruct (IH ltac:(discriminate) Hms) as (IHstart & IHstrip & IHsplit).
    rewrite concat_cons by discriminate. repeat split.
    + apply starts_solid_append, Hstart.
    + rewrite rstrip_append.
      * rewrite rstrip_append; rewrite IHstrip;
          [reflexivity | apply starts_solid_not_empty, IHstart].
      * rewrite rstrip_append; rewrite IHstrip;
          [reflexivity | apply starts_solid_not_empty, IHstart].
    + rewrite split_scan_tight_then by exact Htight. rewrite IHsplit. reflexivity.
Qed.

Lemma text_word_solid (word : string) : text_word word -> solid word = true.
Proof.
  intros [Hne Hcov]. unfold solid.
  destruct word as [|c w]; [now destruct Hne |]. cbn [is_empty negb andb].
  clear Hne. revert Hcov. generalize (String c w) as s. clear c w.
  induction s as [|c s IH]; [reflexivity |].
  cbn [all_chars]. intros H. apply andb_true_iff in H as [Hc Hs].
  rewrite (proj2 (proj2 (covered_letter c Hc))), (IH Hs). reflexivity.
Qed.

Lemma encode_letters_solid (word : string) :
  all_chars covered word = true ->
  Forall (fun k => solid k = true) (map encode_letter (list_ascii_of_string word)).
Proof.
  induction word as [|c w IH]; [constructor |].
  cbn [all_chars list_ascii_of_string map]. intros H. apply andb_true_iff in H as [Hc Hw].
  constructor; [exact (proj1 (proj2 (covered_letter c Hc))) | exact (IH Hw)].
Qed.

Lemma encode_word_shape (word : string) : text_word word -> morse_word (encode_word word).
Proof.
  intros [Hne Hcov]. unfold morse_word, encode_word. split.
  - apply concat_solid_tight, encode_letters_solid, Hcov.
  - apply concat_solid_starts; [| apply encode_letters_solid, Hcov].
    destruct word; [now destruct Hne | discriminate].
Qed.

Lemma decode_encoded_letters (word : string) :
  all_chars covered word = true ->
  concat "" (map decode_letter (map encode_letter (list_ascii_of_string word))) = word.
Proof.
  induction word as [|c w IH]; [reflexivity |].
  cbn [all_chars list_ascii_of_string map]. intros H. apply andb_true_iff in H as [Hc Hw].
  rewrite concat_empty_cons, (proj1 (covered_letter c Hc)), (IH Hw). reflexivity.
Qed.

Lemma join_letters_encode_word (word : string) :
  text_word word -> join_letters (encode_word word) = word.
Proof.
  intros [Hne Hcov]. unfold join_letters, encode_word.
  rewrite split_ws_concat by (apply encode_letters_solid, Hcov).
  apply decode_encoded_letters, Hcov.
Qed.

Lemma join_words_encode (words : list string) :
  Forall text_word words -> map join_letters (map encode_word words) = words.
Proof.
  induction 1 as [|w ws Hw Hws IH]; [reflexivity |].
  cbn [map]. rewrite join_letters_encode_word by exact Hw. rewrite IH. reflexivity.
Qed.

(** C5: for a text whose words are not empty and hold covered characters
    only, decoding the reference encoding of the words gives the words
    joined by single spaces, that is, the text. *)
Theorem decode_encode_reference (words : list string) :
  Forall text_word words ->
  decode_morse_code (encode_reference words) = Returns (concat " " words).
Proof.
  intros Hwords. rewrite decode_morse_code_joined. f_equal.
  destruct words as [|w ws]; [reflexivity |].
  assert (Hshape : Forall morse_word (map encode_word (w :: ws))).
  { apply Forall_map. eapply Forall_impl; [| exact Hwords].
    intros word. apply encode_word_shape. }
  destruct (concat_words_shape (map encode_word (w :: ws)) ltac:(discriminate) Hshape)
    as (Hstart & Hstrip & Hsplit).
  unfold decode_joined, encode_reference, join_words.
  assert (Hid : strip (concat "   " (map encode_word (w :: ws)))
                = concat "   " (map encode_word (w :: ws))).
  { unfold strip. rewrite lstrip_starts_solid by exact Hstart. exact Hstrip. }
  rewrite Hid, Hsplit, join_words_encode by exact Hwords.
  assert (Hsolid : Forall (fun s => solid s = true) (w :: ws)).
  { eapply Forall_impl; [| exact Hwords]. intros word. apply text_word_solid. }
  unfold strip.
  rewrite lstrip_starts_solid by (apply concat_solid_starts; [discriminate | exact Hsolid]).
  apply rstrip_tight, concat_solid_tight, Hsolid.
Qed.

(** ** The theorems at work *)

Example covered_characters :
  all_chars covered "ABCDEFGHIJKLMNOPQRSTUVWXYZ0123456789.!," = true /\
  covered "a" = false /\ covered " " = false.
Proof. repeat split. Qed.

(** Two blinks of 0.2 s, 0.9 s apart. *)
Example two_dots :
  let final := run (__init__ default_blink_threshold (at_instant 100))
                   [([closed_face], 100.1%Q); ([open_face], 100.3%Q);
                    ([open_face], 101.2%Q);
                    ([closed_face], 101.25%Q); ([open_face], 101.45%Q)] in
  morse_code final = ". ." /\ decode_morse_code (morse_code final) = Returns "EE".
Proof. vm_compute. split; reflexivity. Qed.


Lemma open_gap_classified_witness :
  morse_code (observe after_dot [open_face] 101.4) = morse_code after_dot ++ "   " /\
  last_blink_end (observe after_dot [open_face] 101.4) = 101.4%Q.
Proof.
  refine (proj1 (proj1 (open_gap_classified after_dot open_face 101.4 _ _) _) _).
  - vm_compute. reflexivity.
  - vm_compute. reflexivity.
  - vm_compute. reflexivity.
  - vm_compute. reflexivity.
Defined.

Lemma closed_sample_spaces_witness :
  morse_code (observe after_dot [closed_face] 101.2) = morse_code after_dot ++ " ".
Proof.
  refine (proj1 (proj2 (closed_sample_spaces after_dot closed_face 101.2 _)) _).
  - vm_compute. reflexivity.
  - split; vm_compute; [reflexivity | discriminate].
Defined.

Lemma space_without_closure_witness :
  morse_code (run (__init__ default_blink_threshold (at_instant 100))
                  [([], 100.5%Q); ([open_face], 101.5%Q)]) = "   ".
Proof.
  refine (proj2 (space_without_closure default_blink_threshold 100 open_face 100.5 101.5 _ _)).
  - vm_compute. reflexivity.
  - vm_compute. reflexivity.
Defined.

Lemma space_runs_preserved_witness :
  space_runs_ok (morse_code (process_frame after_dot [open_face] (at_instant 101.4))) = true.
Proof.
  refine (proj1 (space_runs_preserved after_dot _) [open_face] (at_instant 101.4)).
  vm_compute. reflexivity.
Defined.

Lemma decode_encode_reference_witness :
  decode_morse_code (encode_reference ["HI"; "THERE"]) = Returns (concat " " ["HI"; "THERE"]).
Proof.
  refine (decode_encode_reference ["HI"; "THERE"] _).
  repeat constructor; discriminate.
Defined.

(** * More of the class *)

(** ** [eye_aspect_ratio] and the threshold *)

Lemma eyes_open_below_zero (self : BlinkMorseCode) (face_landmarks : Landmarks) :
  (blink_threshold self <= 0)%Q -> eyes_closed self face_landmarks = false.
Proof.
  intros Hthr. unfold eyes_closed.
  assert (H : Qltb (eye_aspect_ratio face_landmarks left_eye) (blink_threshold self) = false).
  { apply Qltb_ge. apply Qle_trans with (1 := Hthr).
    unfold eye_aspect_ratio. apply Qabs_nonneg. }
  rewrite H. reflexivity.
Qed.

Lemma space_or_none_spaces (sp : string) : space_or_none sp -> spaces_only sp = true.
Proof. intros [-> | [-> | ->]]; reflexivity. Qed.

Lemma space_detection_suffix (clock : Clock) (self : BlinkMorseCode) (n : nat) :
  exists sp : string,
    space_or_none sp /\
    morse_code (fst (snd (space_detection clock (self, n)))) = morse_code self ++ sp.
Proof.
  rewrite space_detection_run.
  destruct (Qltb 1.0 _); [destruct (endswith _ "   ") | destruct (Qltb 0.8 _);
    [destruct (endswith _ " ")|]]; cbn [fst snd with_space morse_code].
  - exists "". split; [left; reflexivity | symmetry; apply append_empty_r].
  - exists "   ". split; [right; right; reflexivity | reflexivity].
  - exists "". split; [left; reflexivity | symmetry; apply append_empty_r].
  - exists " ". split; [right; left; reflexivity | reflexivity].
  - exists "". split; [left; reflexivity | symmetry; apply append_empty_r].
Qed.

(** With open eyes and nothing pending, a face only runs the space
    detection, whatever the clock reads. *)
Lemma process_face_open_idle (clock : Clock) (st : BlinkMorseCode * nat) (face_landmarks : Landmarks) :
  eyes_closed (fst st) face_landmarks = false ->
  (blink_start_time (fst st) <= 0)%Q ->
  let st' := snd (process_face face_landmarks clock st) in
  blink_threshold (fst st') = blink_threshold (fst st) /\
  blink_start_time (fst st') = blink_start_time (fst st) /\
  exists sp : string,
    space_or_none sp /\ morse_code (fst st') = morse_code (fst st) ++ sp.
Proof.
  intros Hopen Hidle st'. subst st'.
  rewrite process_face_run.
  destruct st as [self n]. cbn [fst] in *.
  rewrite blink_detection_run.
  unfold eyes_closed in Hopen. rewrite Hopen.
  apply Qltb_ge in Hidle. rewrite Hidle. cbn [snd].
  destruct (space_detection_fields clock (self, n)) as [Hthr Hstart].
  split; [exact Hthr | split; [exact Hstart |]].
  apply space_detection_suffix.
Qed.

Lemma spaces_only_append (a b : string) :
  spaces_only a = true -> spaces_only b = true -> spaces_only (a ++ b) = true.
Proof.
  unfold spaces_only. intros Ha Hb. rewrite all_chars_append, Ha, Hb. reflexivity.
Qed.

(** X2: with a threshold that is not positive no face ever counts as
    closed, so a frame never starts a closure: whatever it holds and
    whatever the clock reads, it leaves [blink_start_time] alone and
    appends spaces only. *)
Theorem no_blink_below_zero (self : BlinkMorseCode) (results : Results) (clock : Clock) :
  (blink_threshold self <= 0)%Q ->
  (blink_start_time self <= 0)%Q ->
  (forall face_landmarks : Landmarks, eyes_closed self face_landmarks = false) /\
  blink_start_time (process_frame self results clock) = blink_start_time self /\
  exists suffix : string,
    morse_code (process_frame self results clock) = morse_code self ++ suffix /\
    spaces_only suffix = true.
Proof.
  intros Hthr Hidle. split; [intros face; apply eyes_open_below_zero, Hthr |].
  assert (Hall : forall st : BlinkMorseCode * nat,
             (blink_threshold (fst st) <= 0)%Q ->
             (blink_start_time (fst st) <= 0)%Q ->
             blink_start_time (fst (snd (for_each_face results clock st)))
             = blink_start_time (fst st) /\
             exists suffix : string,
               morse_code (fst (snd (for_each_face results clock st)))
               = morse_code (fst st) ++ suffix /\
               spaces_only suffix = true).
  { induction results as [|face rest IH]; intros st Hthr' Hidle'.
    - split; [reflexivity |].
      exists "". split; [symmetry; apply append_empty_r | reflexivity].
    - rewrite for_each_face_cons.
      destruct (process_face_open_idle clock st face (eyes_open_below_zero _ _ Hthr') Hidle')
        as (Hthr1 & Hstart1 & sp & Hsp & Hcode).
      destruct (IH (snd (process_face face clock st))) as (IHstart & suffix & IHcode & IHsp).
      + rewrite Hthr1. exact Hthr'.
      + rewrite Hstart1. exact Hidle'.
      + split; [rewrite IHstart; exact Hstart1 |].
        exists (sp ++ suffix). split.
        * rewrite IHcode, Hcode. apply append_assoc.
        * apply spaces_only_append; [apply space_or_none_spaces, Hsp | exact IHsp]. }
  exact (Hall (self, 0%nat) Hthr Hidle).
Qed.

(** ** What one face makes a frame do *)

Lemma blink_symbol_or_none (d : Q) : symbol_or_none (blink_symbol d).
Proof.
  unfold blink_symbol, symbol_or_none.
  destruct (Qltb d 0.4); [right; left; reflexivity |].
  destruct (Qltb d 0.8); [right; right; reflexivity | left; reflexivity].
Qed.

(** X3: whatever the clock reads, a frame with one face appends at most
    one symbol followed by at most one space (a letter space or a word
    space), and it appends a symbol only if the eyes are open and a closure
    is pending. *)
Theorem face_appends_symbol_then_space
    (self : BlinkMorseCode) (face_landmarks : Landmarks) (clock : Clock) :
  exists symbol space : string,
    morse_code (process_frame self [face_landmarks] clock)
    = morse_code self ++ symbol ++ space /\
    symbol_or_none symbol /\
    space_or_none space /\
    (symbol <> "" ->
     eyes_closed self face_landmarks = false /\ (0 < blink_start_time self)%Q).
Proof.
  rewrite process_frame_one, process_face_run, blink_detection_run.
  fold (eyes_closed self face_landmarks).
  destruct (eyes_closed self face_landmarks) eqn:Hface.
  - destruct (Qeq_bool (blink_start_time self) 0); cbn [snd];
      match goal with
      | |- context [space_detection clock (?s, ?n)] =>
          destruct (space_detection_suffix clock s n) as (sp & Hsp & Hcode)
      end;
      exists "", sp; cbn [morse_code] in Hcode;
      (split; [exact Hcode | split; [left; reflexivity | split; [exact Hsp |]]]);
      intros Hne; now destruct Hne.
  - destruct (Qltb 0 (blink_start_time self)) eqn:Hpending; cbn [snd];
      match goal with
      | |- context [space_detection clock (?s, ?n)] =>
          destruct (space_detection_suffix clock s n) as (sp & Hsp & Hcode)
      end; cbn [morse_code] in Hcode.
    + exists (blink_symbol (clock 0%nat - blink_start_time self)), sp.
      split; [rewrite Hcode; apply append_assoc |].
      split; [apply blink_symbol_or_none | split; [exact Hsp |]].
      intros _. split; [reflexivity | apply Qltb_lt, Hpending].
    + exists "", sp.
      split; [exact Hcode | split; [left; reflexivity | split; [exact Hsp |]]].
      intros Hne. now destruct Hne.
Qed.

(** X4: with clock readings above zero and a start time that is not
    negative, the pending closure mirrors the eyes of the face just
    processed: after a closed face a closure is pending
    ([blink_start_time > 0]), after an open face none is
    ([blink_start_time == 0]). *)
Theorem pending_follows_eyes
    (self : BlinkMorseCode) (face_landmarks : Landmarks) (clock : Clock) :
  (0 <= blink_start_time self)%Q ->
  (forall k : nat, (0 < clock k)%Q) ->
  let self' := process_frame self [face_landmarks] clock in
  (eyes_closed self face_landmarks = true -> (0 < blink_start_time self')%Q) /\
  (eyes_closed self face_landmarks = false -> (blink_start_time self' == 0)%Q).
Proof.
  intros Hstart Hclock self'. subst self'.
  rewrite process_frame_one, process_face_run.
  rewrite (proj2 (space_detection_fields clock _)).
  rewrite blink_detection_run. fold (eyes_closed self face_landmarks).
  split; intros Hface; rewrite Hface.
  - destruct (Qeq_bool (blink_start_time self) 0) eqn:Hzero; cbn [fst snd blink_start_time].
    + apply Hclock.
    + apply Qle_lt_or_eq in Hstart as [Hlt | Heq]; [exact Hlt |].
      exfalso. symmetry in Heq. apply Qeq_bool_iff in Heq. rewrite Heq in Hzero.
      discriminate Hzero.
  - destruct (Qltb 0 (blink_start_time self)) eqn:Hpending; cbn [fst snd blink_start_time].
    + reflexivity.
    + apply Qltb_ge in Hpending. apply Qle_antisym; assumption.
Qed.

(** X5: zero is the code's mark for "no closure", so a closure whose first
    closed sample reads the clock at zero is not recorded: no closure is
    pending after that sample, and the open sample that follows appends
    spaces only. *)
Theorem closure_at_zero_lost
    (self : BlinkMorseCode) (closed open : Landmarks) (clock clock' : Clock) :
  (blink_start_time self == 0)%Q ->
  eyes_closed self closed = true ->
  eyes_closed self open = false ->
  (clock 0%nat == 0)%Q ->
  let self' := process_frame self [closed] clock in
  (blink_start_time self' == 0)%Q /\
  exists sp : string,
    space_or_none sp /\
    morse_code (process_frame self' [open] clock') = morse_code self' ++ sp.
Proof.
  intros Hidle Hclosed Hopen Hzero self'.
  assert (Hthr : blink_threshold self' = blink_threshold self).
  { apply process_frame_threshold. }
  assert (Hstart : (blink_start_time self' == 0)%Q).
  { subst self'. rewrite process_frame_one, process_face_run.
    rewrite (proj2 (space_detection_fields clock _)).
    rewrite blink_detection_run. fold (eyes_closed self closed). rewrite Hclosed.
    apply Qeq_bool_iff in Hidle. rewrite Hidle. exact Hzero. }
  split; [exact Hstart |].
  rewrite process_frame_one.
  destruct (process_face_open_idle clock' (self', 0%nat) open) as (_ & _ & sp & Hsp & Hcode).
  - cbn [fst]. rewrite <- Hopen. apply eyes_closed_threshold. exact Hthr.
  - cbn [fst]. rewrite Hstart. apply Qle_refl.
  - exists sp. split; [exact Hsp | exact Hcode].
Qed.

(** ** The gap timer under a clock that never goes back *)

Lemma monotone_step (clock : Clock) (n : nat) : monotone clock -> (clock n <= clock (S n))%Q.
Proof. intros Hmono. apply Hmono. lia. Qed.

Lemma blink_detection_timer (clock : Clock) (st : BlinkMorseCode * nat) (left_ear right_ear : Q) :
  monotone clock -> timer_behind clock st ->
  let st' := snd (blink_detection left_ear right_ear clock st) in
  (last_blink_end (fst st) <= last_blink_end (fst st'))%Q /\ timer_behind clock st'.
Proof.
  intros Hmono Hbehind st'. subst st'. unfold timer_behind in *.
  destruct st as [self n]. rewrite blink_detection_run. cbn [fst snd] in *.
  pose proof (monotone_step clock n Hmono) as H1.
  pose proof (monotone_step clock (S n) Hmono) as H2.
  destruct (_ && _); [destruct (Qeq_bool _ 0) | destruct (Qltb 0 _)];
    cbn [fst snd last_blink_end]; split;
    first [apply Qle_refl | assumption
          | apply Qle_trans with (1 := Hbehind); assumption ].
Qed.

Lemma space_detection_timer (clock : Clock) (st : BlinkMorseCode * nat) :
  monotone clock -> timer_behind clock st ->
  let st' := snd (space_detection clock st) in
  (last_blink_end (fst st) <= last_blink_end (fst st'))%Q /\ timer_behind clock st'.
Proof.
  intros Hmono Hbehind st'. subst st'. unfold timer_behind in *.
  destruct st as [self n]. rewrite space_detection_run. cbn [fst snd] in *.
  pose proof (monotone_step clock n Hmono) as H1.
  pose proof (monotone_step clock (S n) Hmono) as H2.
  pose proof (monotone_step clock (S (S n)) Hmono) as H3.
  pose proof (Qle_trans _ _ _ Hbehind H1) as H01.
  pose proof (Qle_trans _ _ _ H01 H2) as H02.
  destruct (Qltb 1.0 _); [destruct (endswith _ "   ") | destruct (Qltb 0.8 _);
    [destruct (endswith _ " ")|]];
    cbn [fst snd with_space last_blink_end]; split;
    first [apply Qle_refl | assumption].
Qed.

(** X6: when the clock never goes back and the gap timer is not ahead of
    it, [process_frame] does not move the timer back, whatever the frame
    holds: [last_blink_end] stays or moves forward, so the gaps that the
    space detection measures are never negative. *)
Theorem timer_never_goes_back (self : BlinkMorseCode) (results : Results) (clock : Clock) :
  monotone clock ->
  (last_blink_end self <= clock 0%nat)%Q ->
  (last_blink_end self <= last_blink_end (process_frame self results clock))%Q.
Proof.
  intros Hmono Hbehind.
  assert (Hall : forall st : BlinkMorseCode * nat,
             timer_behind clock st ->
             (last_blink_end (fst st)
              <= last_blink_end (fst (snd (for_each_face results clock st))))%Q).
  { induction results as [|face rest IH]; intros st Hst.
    - apply Qle_refl.
    - rewrite for_each_face_cons, process_face_run.
      destruct (blink_detection_timer clock st
                  (eye_aspect_ratio face left_eye) (eye_aspect_ratio face right_eye)
                  Hmono Hst) as [Hle1 Hst1].
      destruct (space_detection_timer clock _ Hmono Hst1) as [Hle2 Hst2].
      apply Qle_trans with (1 := Hle1). apply Qle_trans with (1 := Hle2).
      apply IH. exact Hst2. }
  exact (Hall (self, 0%nat) Hbehind).
Qed.

(** ** Whole sessions *)

Lemma process_frame_runs_ok (self : BlinkMorseCode) (results : Results) (clock : Clock) :
  space_runs_ok (morse_code self) = true ->
  space_runs_ok (morse_code (process_frame self results clock)) = true.
Proof.
  intros Hok.
  assert (Hall : forall st : BlinkMorseCode * nat,
             space_runs_ok (morse_code (fst st)) = true ->
             space_runs_ok (morse_code (fst (snd (for_each_face results clock st)))) = true).
  { induction results as [|face rest IH]; intros st Hst; [exact Hst |].
    rewrite for_each_face_cons. apply IH. rewrite process_face_run.
    apply space_detection_runs_ok, blink_detection_runs_ok, Hst. }
  exact (Hall (self, 0%nat) Hok).
Qed.

Lemma process_frame_extends (self : BlinkMorseCode) (results : Results) (clock : Clock) :
  extends (morse_code self) (morse_code (process_frame self results clock)).
Proof.
  assert (Hall : forall st : BlinkMorseCode * nat,
             extends (morse_code (fst st))
                     (morse_code (fst (snd (for_each_face results clock st))))).
  { induction results as [|face rest IH]; intros st; [apply extends_refl |].
    rewrite for_each_face_cons. eapply extends_trans; [| apply IH].
    rewrite process_face_run.
    eapply extends_trans; [apply blink_detection_extends | apply space_detection_extends]. }
  exact (Hall (self, 0%nat)).
Qed.

Lemma extends_alphabet (old new : string) :
  extends old new -> all_chars transcript_char old = true ->
  all_chars transcript_char new = true.
Proof.
  intros (suffix & -> & Hsuffix) Hold. rewrite all_chars_append, Hold, Hsuffix. reflexivity.
Qed.

(** X7: in every session, whatever the frames hold and whatever the
    clocks read, the transcript that [process_frame] has built since
    [__init__] consists of ".", "-" and " " only, each of its runs of
    spaces has length 1, 3 or 4, and the threshold is the one given to
    [__init__]. *)
Theorem session_transcript_shape
    (threshold : Q) (start : Clock) (frames : list (Results * Clock)) :
  let self := session (__init__ threshold start) frames in
  all_chars transcript_char (morse_code self) = true /\
  space_runs_ok (morse_code self) = true /\
  blink_threshold self = threshold.
Proof.
  cbn zeta.
  assert (Hall : forall self0 : BlinkMorseCode,
             all_chars transcript_char (morse_code self0) = true ->
             space_runs_ok (morse_code self0) = true ->
             all_chars transcript_char (morse_code (session self0 frames)) = true /\
             space_runs_ok (morse_code (session self0 frames)) = true /\
             blink_threshold (session self0 frames) = blink_threshold self0).
  { unfold session. induction frames as [|frame frames IH]; intros self0 Halpha Hruns.
    - repeat split; assumption.
    - cbn [fold_left].
      destruct (IH (process_frame self0 (fst frame) (snd frame))) as (H1 & H2 & H3).
      + eapply extends_alphabet; [apply process_frame_extends | exact Halpha].
      + apply process_frame_runs_ok, Hruns.
      + repeat split; [exact H1 | exact H2 |].
        rewrite H3. apply process_frame_threshold. }
  apply (Hall (__init__ threshold start)); reflexivity.
Qed.

(** ** More of the decoder *)

Lemma lstrip_blanks (p : string) : blanks_only p = true -> lstrip p = "".
Proof.
  unfold blanks_only. induction p as [|c p IH]; [reflexivity |].
  cbn [all_chars lstrip]. intros H. apply andb_true_iff in H as [Hc Hp].
  rewrite Hc. apply IH, Hp.
Qed.

Lemma rstrip_blanks (p : string) : blanks_only p = true -> rstrip p = "".
Proof.
  unfold blanks_only. induction p as [|c p IH]; [reflexivity |].
  cbn [all_chars rstrip]. intros H. apply andb_true_iff in H as [Hc Hp].
  rewrite (IH Hp), Hc. reflexivity.
Qed.

Lemma lstrip_blanks_then (p s : string) : blanks_only p = true -> lstrip (p ++ s) = lstrip s.
Proof.
  unfold blanks_only. induction p as [|c p IH]; [reflexivity |].
  cbn [all_chars append lstrip]. intros H. apply andb_true_iff in H as [Hc Hp].
  rewrite Hc. apply IH, Hp.
Qed.

Lemma rstrip_append_blanks (s p : string) : blanks_only p = true -> rstrip (s ++ p) = rstrip s.
Proof.
  intros Hp. induction s as [|c s IH].
  - cbn [append]. apply rstrip_blanks, Hp.
  - cbn [append rstrip]. rewrite IH. reflexivity.
Qed.

Lemma lstrip_append_blanks (s p : string) :
  blanks_only p = true ->
  lstrip (s ++ p) = lstrip s ++ p \/ (lstrip (s ++ p) = "" /\ lstrip s = "").
Proof.
  intros Hp. induction s as [|c s IH].
  - right. split; [apply lstrip_blanks, Hp | reflexivity].
  - cbn [append lstrip]. destruct (isspace c); [exact IH | left; reflexivity].
Qed.

Lemma strip_padded (p1 s p2 : string) :
  blanks_only p1 = true -> blanks_only p2 = true -> strip (p1 ++ s ++ p2) = strip s.
Proof.
  intros H1 H2. unfold strip. rewrite lstrip_blanks_then by exact H1.
  destruct (lstrip_append_blanks s p2 H2) as [-> | [-> ->]].
  - apply rstrip_append_blanks, H2.
  - reflexivity.
Qed.

(** X8: blanks before and after the transcript do not count: with any
    whitespace put in front of it and behind it, [decode_morse_code]
    returns what it returns for the transcript itself; so the letter space
    or word space that ends a live transcript leaves the decoded text as
    it is. *)
Theorem decode_ignores_outer_blanks (before morse after : string) :
  blanks_only before = true ->
  blanks_only after = true ->
  decode_morse_code (before ++ morse ++ after) = decode_morse_code morse.
Proof.
  intros Hb Ha. unfold decode_morse_code.
  rewrite (strip_padded before morse after Hb Ha). reflexivity.
Qed.

Lemma rstrip_idempotent (s : string) : rstrip (rstrip s) = rstrip s.
Proof.
  induction s as [|c s IH]; [reflexivity |].
  cbn [rstrip]. destruct (isspace c && is_empty (rstrip s)) eqn:E; [reflexivity |].
  cbn [rstrip]. rewrite IH, E. reflexivity.
Qed.

Lemma lstrip_shape (s : string) : lstrip s = "" \/ starts_solid (lstrip s) = true.
Proof.
  induction s as [|c s IH]; [left; reflexivity |].
  cbn [lstrip]. destruct (isspace c) eqn:Hc; [exact IH |].
  right. cbn. unfold not_space. rewrite Hc. reflexivity.
Qed.

Lemma rstrip_starts_solid (s : string) :
  starts_solid s = true -> starts_solid (rstrip s) = true.
Proof.
  destruct s as [|c s]; [discriminate |]. cbn [starts_solid rstrip]. intros Hc.
  unfold not_space in Hc. apply negb_true_iff in Hc. rewrite Hc. cbn.
  unfold not_space. rewrite Hc. reflexivity.
Qed.

Lemma strip_trimmed (s : string) :
  lstrip (strip s) = strip s /\ rstrip (strip s) = strip s.
Proof.
  unfold strip. split; [| apply rstrip_idempotent].
  destruct (lstrip_shape s) as [-> | Hsolid]; [reflexivity |].
  apply lstrip_starts_solid, rstrip_starts_solid, Hsolid.
Qed.

Lemma all_chars_lstrip (p : ascii -> bool) (s : string) :
  all_chars p s = true -> all_chars p (lstrip s) = true.
Proof.
  induction s as [|c s IH]; [reflexivity |].
  cbn [lstrip]. destruct (isspace c); [| intros H; exact H].
  cbn [all_chars]. intros H. apply andb_true_iff in H. apply IH, H.
Qed.

Lemma all_chars_rstrip (p : ascii -> bool) (s : string) :
  all_chars p s = true -> all_chars p (rstrip s) = true.
Proof.
  induction s as [|c s IH]; [reflexivity |].
  cbn [all_chars rstrip]. intros H. apply andb_true_iff in H as [Hc Hs].
  destruct (isspace c && is_empty (rstrip s)); [reflexivity |].
  cbn [all_chars]. rewrite Hc, (IH Hs). reflexivity.
Qed.

Lemma all_chars_concat (p : ascii -> bool) (sep : string) (l : list string) :
  all_chars p sep = true ->
  Forall (fun s => all_chars p s = true) l ->
  all_chars p (concat sep l) = true.
Proof.
  intros Hsep. induction 1 as [|x l Hx Hl IH]; [reflexivity |].
  destruct l as [|y l]; [exact Hx |].
  rewrite concat_cons by discriminate.
  rewrite !all_chars_append, Hx, Hsep, IH. reflexivity.
Qed.

Lemma values_decoded_chars :
  Forall (fun v => all_chars decoded_char v = true) (values morse_code_map).
Proof. repeat constructor. Qed.

Lemma decode_letter_chars (letter : string) :
  all_chars decoded_char (decode_letter letter) = true.
Proof.
  unfold decode_letter.
  destruct (existsb (fun k => k =? letter) (keys morse_code_map)) eqn:E.
  - apply (get_known _ _ unknown_letter) in E.
    exact (proj1 (Forall_forall _ _) values_decoded_chars _ E).
  - rewrite get_unknown by exact E. reflexivity.
Qed.

(** X10: the decoded text never echoes the transcript: whatever the input
    holds, every character of the result is a character of the table, a
    space, or a byte of the placeholder. *)
Theorem decoded_text_alphabet (morse : string) :
  exists text : string,
    decode_morse_code morse = Returns text /\
    all_chars decoded_char text = true.
Proof.
  exists (decode_joined morse). split; [apply decode_morse_code_joined |].
  unfold decode_joined, strip, join_words, join_letters.
  apply all_chars_rstrip, all_chars_lstrip, all_chars_concat; [reflexivity |].
  apply Forall_map, Forall_forall. intros word _.
  apply all_chars_concat; [reflexivity |].
  apply Forall_map, Forall_forall. intros letter _.
  apply decode_letter_chars.
Qed.

Lemma morse_word_not_empty (m : string) : morse_word m -> is_empty (rstrip m) = false.
Proof.
  intros [Htight Hstart]. rewrite (rstrip_tight m Htight).
  apply starts_solid_not_empty, Hstart.
Qed.

Lemma decode_joined_two_words (a b gap : string) :
  morse_word a -> morse_word b ->
  gap = "" \/ gap = " " ->
  decode_joined (a ++ "   " ++ gap ++ b) = strip (join_words [a; b]).
Proof.
  intros Ha Hb Hgap. unfold decode_joined.
  assert (Hgb : tight (gap ++ b) = true /\ rstrip (gap ++ b) = gap ++ b /\
                is_empty (gap ++ b) = false /\ join_letters (gap ++ b) = join_letters b).
  { destruct Hb as [Htight Hstart]. destruct Hgap as [-> | ->].
    - repeat split; [exact Htight | apply rstrip_tight, Htight
                    | apply starts_solid_not_empty, Hstart].
    - assert (Ht : tight (" " ++ b) = true).
      { cbn [append tight]. rewrite Hstart, Htight. reflexivity. }
      repeat split; [exact Ht | apply rstrip_tight, Ht]. }
  destruct Hgb as (Htight & Hrstrip & Hne & Hletters).
  assert (Hstrip : strip (a ++ "   " ++ gap ++ b) = a ++ "   " ++ gap ++ b).
  { unfold strip.
    rewrite lstrip_starts_solid by (apply starts_solid_append, Ha).
    rewrite rstrip_append.
    - rewrite rstrip_append; rewrite Hrstrip; [reflexivity | exact Hne].
    - rewrite rstrip_append; rewrite Hrstrip; [reflexivity | exact Hne]. }
  rewrite Hstrip.
  rewrite split_scan_tight_then by apply Ha.
  rewrite split_scan_tight by exact Htight.
  unfold join_words. cbn [map]. rewrite Hletters. reflexivity.
Qed.

(** X11: a letter space followed by a word space, the four spaces that the
    encoder leaves between two words, decodes like the word space alone:
    between two words a run of four spaces and a run of three give the
    same text. *)
Theorem four_spaces_like_three (a b : string) :
  morse_word a -> morse_word b ->
  decode_morse_code (a ++ "    " ++ b) = decode_morse_code (a ++ "   " ++ b).
Proof.
  intros Ha Hb. rewrite !decode_morse_code_joined. f_equal.
  change (a ++ "    " ++ b) with (a ++ "   " ++ " " ++ b).
  change (a ++ "   " ++ b) with (a ++ "   " ++ "" ++ b).
  rewrite !decode_joined_two_words by (assumption || (left; reflexivity) || (right; reflexivity)).
  reflexivity.
Qed.

(** ** The code table *)

Lemma in_table_key (k : string) : in_table k = true -> In k (keys morse_code_map).
Proof.
  unfold in_table. intros H. apply existsb_exists in H as (k' & Hin & Heq).
  apply String.eqb_eq in Heq. subst k'. exact Hin.
Qed.

Lemma table_checked :
  forallb (fun k1 =>
             morse_key k1 &&
             in_table k1 &&
             forallb (fun k2 => implb (decode_letter k1 =? decode_letter k2) (k1 =? k2))
                     (keys morse_code_map))
          (keys morse_code_map) = true.
Proof. vm_compute. reflexivity. Qed.

(** X12: the table is one to one: every key is one to six dots and
    dashes, no key stands twice, and two keys that decode to the same
    character are the same key, so a decoded character names its code. *)
Theorem table_one_to_one :
  NoDup (keys morse_code_map) /\
  (forall k : string, in_table k = true -> morse_key k = true) /\
  (forall k1 k2 : string,
      in_table k1 = true -> in_table k2 = true ->
      decode_letter k1 = decode_letter k2 -> k1 = k2).
Proof.
  pose proof (proj1 (forallb_forall _ _) table_checked) as Hcheck. cbn beta in Hcheck.
  split; [| split].
  - apply (NoDup_count_occ' string_dec). intros k Hin.
    revert k Hin. apply Forall_forall. repeat constructor.
  - intros k Hk. specialize (Hcheck k (in_table_key k Hk)).
    apply andb_true_iff in Hcheck as [Hcheck _].
    apply andb_true_iff in Hcheck as [Hcheck _]. exact Hcheck.
  - intros k1 k2 H1 H2 Heq. specialize (Hcheck k1 (in_table_key k1 H1)).
    apply andb_true_iff in Hcheck as [_ Hall].
    pose proof (proj1 (forallb_forall _ _) Hall k2 (in_table_key k2 H2)) as H.
    cbn beta in H. rewrite Heq, String.eqb_refl in H. cbn in H.
    apply String.eqb_eq, H.
Qed.

(** ** The main loop *)

Lemma loop_without_quit (frames : list Main.Frame) (self : BlinkMorseCode) :
  Forall (fun frame => Main.quit_key (Main.key frame) = false) frames ->
  Main.loop self frames = session self (Main.inputs frames).
Proof.
  revert self. induction frames as [|frame frames IH]; intros self Hall; [reflexivity |].
  inversion Hall as [|? ? Hframe Hrest]; subst.
  cbn [Main.loop]. rewrite Hframe. rewrite (IH _ Hrest). reflexivity.
Qed.

Lemma session_app (self : BlinkMorseCode) (a b : list (Results * Clock)) :
  session self (a ++ b) = session (session self a) b.
Proof. unfold session. apply fold_left_app. Qed.

(** X13: the loop of [run] processes the frames in order, up to and
    including the first one whose key is "q" or ESC, and none after it;
    without such a key it processes every frame that the camera delivers. *)
Theorem loop_stops_at_quit (self : BlinkMorseCode) (before after : list Main.Frame)
        (frame : Main.Frame) :
  Forall (fun f => Main.quit_key (Main.key f) = false) before ->
  Main.quit_key (Main.key frame) = true ->
  Main.loop self (before ++ frame :: after)
  = session self (Main.inputs (before ++ [frame])) /\
  Main.loop self before = session self (Main.inputs before).
Proof.
  intros Hbefore Hquit. split; [| apply loop_without_quit, Hbefore].
  revert self. induction before as [|f before IH]; intros self.
  - cbn [app Main.loop]. rewrite Hquit. reflexivity.
  - inversion Hbefore as [|? ? Hf Hrest]; subst.
    cbn [app Main.loop]. rewrite Hf. rewrite (IH Hrest). reflexivity.
Qed.

Lemma loop_no_face (frames : list Main.Frame) (self : BlinkMorseCode) :
  Forall (fun frame => Main.results frame = []) frames ->
  Main.loop self frames = self.
Proof.
  induction 1 as [|frame frames Hframe Hrest IH]; [reflexivity |].
  cbn [Main.loop]. rewrite Hframe, process_frame_no_face, IH.
  destruct (Main.quit_key (Main.key frame)); reflexivity.
Qed.

(** X14: when the face mesh finds no face in any frame, [run] leaves
    [self] as it was, however long the camera runs and whatever keys are
    pressed; started right after [__init__], the final transcript and the
    decoded message are both empty. *)
Theorem run_without_faces (self : BlinkMorseCode) (frames : list Main.Frame)
        (threshold : Q) (start : Clock) :
  Forall (fun frame => Main.results frame = []) frames ->
  Main.run self (Some frames) = Some (self, decode_morse_code (morse_code self)) /\
  Main.run (__init__ threshold start) (Some frames)
  = Some (__init__ threshold start, Returns "").
Proof.
  intros Hnone. unfold Main.run. rewrite !loop_no_face by exact Hnone.
  split; reflexivity.
Qed.

(** ** A closure under a running clock *)


(** ** Transcripts of known letters decode apart *)

Lemma keys_checked :
  forallb (fun k =>
             match decode_letter k with
             | String c EmptyString => covered c && (encode_letter c =? k)
             | _ => false
             end)
          (keys morse_code_map) = true.
Proof. vm_compute. reflexivity. Qed.

Lemma known_key (k : string) :
  in_table k = true ->
  exists c : ascii,
    decode_letter k = String c "" /\ covered c = true /\ encode_letter c = k.
Proof.
  intros Hk.
  pose proof (proj1 (forallb_forall _ _) keys_checked k (in_table_key k Hk)) as H.
  cbn beta in H.
  destruct (decode_letter k) as [|c [|c' rest]]; try discriminate H.
  apply andb_true_iff in H as [Hc He]. apply String.eqb_eq in He.
  exists c. repeat split; assumption.
Qed.

Lemma word_text_letters (letters : list string) :
  Forall (fun k => in_table k = true) letters ->
  map encode_letter (list_ascii_of_string (word_text letters)) = letters /\
  all_chars covered (word_text letters) = true.
Proof.
  unfold word_text. induction 1 as [|k ks Hk Hks [IH1 IH2]]; [split; reflexivity |].
  cbn [map]. rewrite concat_empty_cons.
  destruct (known_key k Hk) as (c & -> & Hc & He).
  cbn [append list_ascii_of_string map all_chars].
  rewrite IH1, IH2, Hc, He. split; reflexivity.
Qed.

Lemma word_text_word (letters : list string) :
  known_word letters -> text_word (word_text letters) /\
                        encode_word (word_text letters) = concat " " letters.
Proof.
  intros [Hne Hall]. destruct (word_text_letters letters Hall) as [Hback Hcov].
  split; [split; [| exact Hcov] |].
  - intros Hempty. rewrite Hempty in Hback. cbn in Hback. now destruct Hne.
  - unfold encode_word. rewrite Hback. reflexivity.
Qed.

Lemma transcript_of_encoding (words : list (list string)) :
  Forall known_word words ->
  transcript_of words = encode_reference (map word_text words) /\
  Forall text_word (map word_text words).
Proof.
  unfold transcript_of, encode_reference.
  induction 1 as [|w ws Hw Hws [IH1 IH2]]; [split; [reflexivity | constructor] |].
  destruct (word_text_word w Hw) as [Htext Henc].
  split.
  - rewrite map_map in *. cbn [map]. f_equal.
    rewrite Henc. f_equal.
    clear - Hws. induction Hws as [|v vs Hv Hvs IH]; [reflexivity |].
    cbn [map]. rewrite (proj2 (word_text_word v Hv)), IH. reflexivity.
  - cbn [map]. constructor; assumption.
Qed.

(** Decoding the encoding of a text, from the shape of encoded words. *)
Lemma decode_of_encoding (words : list string) :
  Forall text_word words ->
  decode_morse_code (encode_reference words) = Returns (concat " " words).
Proof.
  intros Hwords. rewrite decode_morse_code_joined. f_equal.
  destruct words as [|w ws]; [reflexivity |].
  assert (Hshape : Forall morse_word (map encode_word (w :: ws))).
  { apply Forall_map. eapply Forall_impl; [| exact Hwords].
    intros word. apply encode_word_shape. }
  destruct (concat_words_shape (map encode_word (w :: ws)) ltac:(discriminate) Hshape)
    as (Hstart & Hstrip & Hsplit).
  unfold decode_joined, encode_reference, join_words.
  assert (Hid : strip (concat "   " (map encode_word (w :: ws)))
                = concat "   " (map encode_word (w :: ws))).
  { unfold strip. rewrite lstrip_starts_solid by exact Hstart. exact Hstrip. }
  rewrite Hid, Hsplit, join_words_encode by exact Hwords.
  assert (Hsolid : Forall (fun s => solid s = true) (w :: ws)).
  { eapply Forall_impl; [| exact Hwords]. intros word. apply text_word_solid. }
  unfold strip.
  rewrite lstrip_starts_solid by (apply concat_solid_starts; [discriminate | exact Hsolid]).
  apply rstrip_tight, concat_solid_tight, Hsolid.
Qed.

Lemma word_text_apart (words1 words2 : list (list string)) :
  Forall known_word words1 -> Forall known_word words2 ->
  map word_text words1 = map word_text words2 -> words1 = words2.
Proof.
  intros H1. revert words2.
  induction H1 as [|w1 ws1 Hw1 Hws1 IH]; intros words2 H2 Heq.
  - destruct words2; [reflexivity | discriminate Heq].
  - destruct words2 as [|w2 ws2]; [discriminate Heq |].
    inversion H2 as [|? ? Hw2 Hws2]; subst. cbn [map] in Heq.
    injection Heq as Hhead Htail. f_equal; [| apply IH; assumption].
    rewrite <- (proj1 (word_text_letters w1 (proj2 Hw1))).
    rewrite <- (proj1 (word_text_letters w2 (proj2 Hw2))).
    rewrite Hhead. reflexivity.
Qed.

(** X16: a transcript of known letters decodes to the characters of its
    letters, word by word, and two such transcripts that decode to the
    same text have the same letters in the same words: on transcripts of
    known letters the decoder loses nothing. *)
Theorem known_transcripts_decode_apart (words1 words2 : list (list string)) :
  Forall known_word words1 ->
  Forall known_word words2 ->
  decode_morse_code (transcript_of words1) = Returns (text_of words1) /\
  (decode_morse_code (transcript_of words1) = decode_morse_code (transcript_of words2) ->
   words1 = words2).
Proof.
  intros H1 H2.
  destruct (transcript_of_encoding words1 H1) as [E1 T1].
  destruct (transcript_of_encoding words2 H2) as [E2 T2].
  assert (D1 : decode_morse_code (transcript_of words1) = Returns (text_of words1)).
  { rewrite E1. apply decode_of_encoding, T1. }
  assert (D2 : decode_morse_code (transcript_of words2) = Returns (text_of words2)).
  { rewrite E2. apply decode_of_encoding, T2. }
  split; [exact D1 |].
  rewrite D1, D2. intros Heq. injection Heq as Heq. unfold text_of in Heq.
  apply word_text_apart; [assumption | assumption |].
  assert (S1 : Forall (fun s => solid s = true) (map word_text words1)).
  { eapply Forall_impl; [| exact T1]. intros w. apply text_word_solid. }
  assert (S2 : Forall (fun s => solid s = true) (map word_text words2)).
  { eapply Forall_impl; [| exact T2]. intros w. apply text_word_solid. }
  rewrite <- (split_ws_concat _ S1), <- (split_ws_concat _ S2), Heq. reflexivity.
Qed.

(** ** Word spaces under dense sampling *)

(** After a sample with a face, either the gap timer is at most 0.8 s
    behind the sample or the transcript ends with a space. *)
Lemma observe_gap_or_space (self : BlinkMorseCode) (face_landmarks : Landmarks) (t : Q) :
  let self' := observe self [face_landmarks] t in
  (t - last_blink_end self' <= 0.8)%Q \/ endswith (morse_code self') " " = true.
Proof.
  cbn zeta. unfold observe. rewrite process_frame_one, process_face_run.
  assert (Hspace : forall (s : BlinkMorseCode) (n : nat),
             let s' := fst (snd (space_detection (at_instant t) (s, n))) in
             (t - last_blink_end s' <= 0.8)%Q \/ endswith (morse_code s') " " = true).
  { intros s n. cbn zeta. rewrite space_detection_run. unfold at_instant.
    assert (Hzero : (t - t <= 0.8)%Q).
    { setoid_replace (t - t)%Q with 0%Q by ring. discriminate. }
    destruct (Qltb 1.0 (t - last_blink_end s)) eqn:Hw.
    - destruct (endswith (morse_code s) "   ") eqn:He; cbn [fst snd with_space last_blink_end].
      + right. apply endswith_word_letter, He.
      + left. exact Hzero.
    - destruct (Qltb 0.8 (t - last_blink_end s)) eqn:Hl.
      + destruct (endswith (morse_code s) " ") eqn:He;
          cbn [fst snd with_space last_blink_end].
        * right. exact He.
        * left. exact Hzero.
      + left. cbn [fst snd]. apply Qltb_ge, Hl. }
  destruct (blink_detection _ _ (at_instant t) (self, 0%nat)) as [u [s n]]. cbn [snd].
  apply Hspace.
Qed.

(** X17: with samples no more than 0.2 s apart, a word space is only ever
    appended behind a space: when the second of two such samples appends
    the word space, the transcript already ended with a space, so that a
    word gap shows as four spaces. *)
Theorem word_space_behind_space
    (self : BlinkMorseCode) (face1 face2 : Landmarks) (t t' : Q) :
  (t' - t <= 0.2)%Q ->
  let first := observe self [face1] t in
  let second := observe first [face2] t' in
  morse_code second = morse_code first ++ "   " ->
  endswith (morse_code first) " " = true.
Proof.
  intros Hdense first second Hword.
  destruct (observe_gap_or_space self face1 t) as [Hgap | Hspace]; [| exact Hspace].
  fold first in Hgap. exfalso.
  assert (Hgap' : (t' - last_blink_end first <= 1.0)%Q).
  { setoid_replace (t' - last_blink_end first)%Q
      with ((t' - t) + (t - last_blink_end first))%Q by ring.
    setoid_replace (1.0)%Q with (0.2 + 0.8)%Q by reflexivity.
    apply Qplus_le_compat; assumption. }
  assert (Hlen : length (morse_code second) = (length (morse_code first) + 3)%nat).
  { rewrite Hword. clear. induction (morse_code first) as [|c s IH]; cbn; [reflexivity |].
    rewrite IH. reflexivity. }
  assert (Happ : forall a b : string, length (a ++ b) = (length a + length b)%nat).
  { clear. intros a b. induction a as [|c a IH]; cbn; [reflexivity | now rewrite IH]. }
  revert Hlen. subst second. unfold observe.
  rewrite process_frame_one, process_face_run, blink_detection_run.
  fold (eyes_closed first face2).
  assert (Hw : Qltb 1.0 (t' - last_blink_end first) = false) by (apply Qltb_ge, Hgap').
  assert (Hz1 : Qltb 1.0 (t' - t') = false) by (apply Qltb_irrefl_minus; discriminate).
  assert (Hz2 : Qltb 0.8 (t' - t') = false) by (apply Qltb_irrefl_minus; discriminate).
  destruct (eyes_closed first face2);
    [destruct (Qeq_bool (blink_start_time first) 0)
    | destruct (Qltb 0 (blink_start_time first))];
    cbn [snd]; rewrite space_detection_run; unfold at_instant;
    cbn [last_blink_end morse_code]; rewrite ?Hw, ?Hz1, ?Hz2.
  1-2, 4: destruct (Qltb 0.8 (t' - last_blink_end first));
    [destruct (endswith (morse_code first) " ") |];
    cbn [fst snd with_space morse_code]; rewrite ?Happ; cbn [length]; lia.
  cbn [fst snd morse_code]. rewrite Happ. unfold blink_symbol.
  destruct (Qltb _ 0.4); [| destruct (Qltb _ 0.8)]; cbn [length]; lia.
Qed.

(** ** The further theorems at work *)

Lemma no_blink_below_zero_witness :
  let self := __init__ 0 (at_instant 100) in
  blink_start_time (process_frame self [closed_face] (at_instant 101.5)) = blink_start_time self.
Proof.
  refine (proj1 (proj2 (no_blink_below_zero (__init__ 0 (at_instant 100)) [closed_face]
                          (at_instant 101.5) _ _))).
  - vm_compute. discriminate.
  - vm_compute. discriminate.
Defined.

Lemma pending_follows_eyes_witness :
  (0 < blink_start_time (process_frame after_dot [closed_face] (at_instant 100.5)))%Q.
Proof.
  refine (proj1 (pending_follows_eyes after_dot closed_face (at_instant 100.5) _ _) _).
  - vm_compute. discriminate.
  - intros k. vm_compute. reflexivity.
  - vm_compute. reflexivity.
Defined.

Lemma timer_never_goes_back_witness :
  (last_blink_end after_dot
   <= last_blink_end (process_frame after_dot [open_face] (at_instant 101.4)))%Q.
Proof.
  refine (timer_never_goes_back after_dot [open_face] (at_instant 101.4) _ _).
  - intros i j _. vm_compute. discriminate.
  - vm_compute. discriminate.
Defined.

Lemma closure_at_zero_lost_witness :
  let self := __init__ default_blink_threshold (at_instant 0) in
  (blink_start_time (process_frame self [closed_face] (at_instant 0)) == 0)%Q.
Proof.
  refine (proj1 (closure_at_zero_lost (__init__ default_blink_threshold (at_instant 0))
                   closed_face open_face (at_instant 0) (at_instant 0.2) _ _ _ _)).
  - vm_compute. reflexivity.
  - vm_compute. reflexivity.
  - vm_compute. reflexivity.
  - vm_compute. reflexivity.
Defined.

Lemma decode_ignores_outer_blanks_witness :
  decode_morse_code (" " ++ "... --- ..." ++ "   ") = decode_morse_code "... --- ...".
Proof.
  refine (decode_ignores_outer_blanks " " "... --- ..." "   " _ _); reflexivity.
Defined.

Lemma four_spaces_like_three_witness :
  decode_morse_code (".... .." ++ "    " ++ "- .... . .-. .")
  = decode_morse_code (".... .." ++ "   " ++ "- .... . .-. .").
Proof.
  refine (four_spaces_like_three ".... .." "- .... . .-. ." _ _); split; reflexivity.
Defined.

Lemma loop_stops_at_quit_witness :
  Main.loop after_dot ([idle_frame] ++ quit_frame :: [quit_frame; idle_frame])
  = session after_dot (Main.inputs ([idle_frame] ++ [quit_frame])).
Proof.
  refine (proj1 (loop_stops_at_quit after_dot [idle_frame] [quit_frame; idle_frame]
                   quit_frame _ _)).
  - repeat constructor.
  - reflexivity.
Defined.

Lemma run_without_faces_witness :
  Main.run after_dot (Some [idle_frame; idle_frame])
  = Some (after_dot, decode_morse_code (morse_code after_dot)).
Proof.
  refine (proj1 (run_without_faces after_dot [idle_frame; idle_frame] 0 (at_instant 0) _)).
  repeat constructor.
Defined.


Lemma known_transcripts_decode_apart_witness :
  decode_morse_code (transcript_of [["...."; ".."]; ["-"]]) = Returns (text_of [["...."; ".."]; ["-"]]).
Proof.
  refine (proj1 (known_transcripts_decode_apart [["...."; ".."]; ["-"]] [["."]] _ _)).
  - repeat constructor; discriminate.
  - repeat constructor; discriminate.
Defined.

Lemma word_space_behind_space_witness :
  let spaced := observe after_dot [open_face] 101.15 in
  endswith (morse_code (observe spaced [open_face] 102.1)) " " = true.
Proof.
  refine (word_space_behind_space (observe after_dot [open_face] 101.15)
            open_face open_face 102.1 102.2 _ _).
  - vm_compute. discriminate.
  - vm_compute. reflexivity.
Defined.

(** * The decoder against an independent reading of the transcript *)

(** ** The letters are the runs without blanks *)

Lemma split_ws_unfold (c : ascii) (s : string) :
  split_ws (String c s) =
  if isspace c then split_ws s
  else if at_blank_or_end s then String c "" :: split_ws s
  else cons_head c (split_ws s).
Proof.
  cbn [split_ws]. destruct (isspace c); [reflexivity |].
  destruct s as [|c' s']; [reflexivity |].
  cbn [at_blank_or_end]. destruct (isspace c'); reflexivity.
Qed.

Lemma split_ws_blanks (pad : string) : blanks_only pad = true -> split_ws pad = [].
Proof.
  unfold blanks_only. induction pad as [|c pad IH]; [reflexivity |].
  cbn [all_chars]. intros H. apply andb_true_iff in H as [Hc Hpad].
  rewrite split_ws_unfold, Hc. apply IH, Hpad.
Qed.

Lemma split_ws_blanks_then (pad s : string) :
  blanks_only pad = true -> split_ws (pad ++ s) = split_ws s.
Proof.
  unfold blanks_only. induction pad as [|c pad IH]; [reflexivity |].
  cbn [all_chars append]. intros H. apply andb_true_iff in H as [Hc Hpad].
  rewrite split_ws_unfold, Hc. apply IH, Hpad.
Qed.

Lemma at_blank_or_end_solid_then (letter rest : string) :
  solid letter = true -> at_blank_or_end (letter ++ rest) = false.
Proof.
  destruct letter as [|c letter]; [discriminate |].
  unfold solid. cbn. intros H. apply andb_true_iff in H as [Hc _].
  unfold not_space in Hc. apply negb_true_iff in Hc. exact Hc.
Qed.

Lemma split_ws_solid_stop (letter rest : string) :
  solid letter = true -> at_blank_or_end rest = true ->
  split_ws (letter ++ rest) = letter :: split_ws rest.
Proof.
  intros Hsolid Hrest. induction letter as [|c letter IH]; [discriminate Hsolid |].
  unfold solid in Hsolid. cbn [is_empty negb andb all_chars] in Hsolid.
  apply andb_true_iff in Hsolid as [Hc Hletter].
  cbn [append]. rewrite split_ws_unfold.
  unfold not_space in Hc. apply negb_true_iff in Hc. rewrite Hc.
  destruct letter as [|c' letter].
  - cbn [append]. rewrite Hrest. reflexivity.
  - assert (Hsolid' : solid (String c' letter) = true).
    { unfold solid. cbn [is_empty negb andb]. exact Hletter. }
    rewrite (at_blank_or_end_solid_then _ rest Hsolid'), (IH Hsolid'). reflexivity.
Qed.

(** The characterisation has one answer, the one that [split()] gives. *)
Lemma runs_of_split_ws (s : string) (letters : list string) :
  runs_of s letters -> letters = split_ws s.
Proof.
  induction 1 as [pad Hpad | pad letter rest letters Hpad Hletter Hrest Hruns IH].
  - symmetry. apply split_ws_blanks, Hpad.
  - rewrite split_ws_blanks_then by exact Hpad.
    rewrite split_ws_solid_stop by assumption. rewrite IH. reflexivity.
Qed.

Lemma runs_of_blank_cons (c : ascii) (s : string) (letters : list string) :
  isspace c = true -> runs_of s letters -> runs_of (String c s) letters.
Proof.
  intros Hc Hruns.
  destruct Hruns as [pad Hpad | pad letter rest letters Hpad Hletter Hrest Hruns].
  - apply runs_none. unfold blanks_only in *. cbn [all_chars]. rewrite Hc, Hpad. reflexivity.
  - change (String c (pad ++ letter ++ rest)) with (String c pad ++ letter ++ rest).
    apply runs_cons; try assumption.
    unfold blanks_only in *. cbn [all_chars]. rewrite Hc, Hpad. reflexivity.
Qed.

Lemma runs_of_solid_start (s : string) (letters : list string) :
  runs_of s letters -> at_blank_or_end s = false ->
  exists (letter rest : string) (others : list string),
    s = letter ++ rest /\ letters = letter :: others /\
    solid letter = true /\ at_blank_or_end rest = true /\ runs_of rest others.
Proof.
  intros Hruns Hstart.
  destruct Hruns as [pad Hpad | pad letter rest letters Hpad Hletter Hrest Hruns].
  - exfalso. destruct pad as [|c pad]; [discriminate Hstart |].
    unfold blanks_only in Hpad. cbn in Hpad, Hstart. rewrite Hstart in Hpad. discriminate Hpad.
  - destruct pad as [|c pad].
    + exists letter, rest, letters. repeat split; assumption.
    + exfalso. unfold blanks_only in Hpad. cbn in Hpad, Hstart.
      rewrite Hstart in Hpad. discriminate Hpad.
Qed.

(** And [split()] gives an answer for every string. *)
Lemma split_ws_runs_of (s : string) : runs_of s (split_ws s).
Proof.
  induction s as [|c s IH]; [apply runs_none; reflexivity |].
  rewrite split_ws_unfold. destruct (isspace c) eqn:Hc.
  - apply runs_of_blank_cons; assumption.
  - assert (Hone : solid (String c "") = true).
    { unfold solid, not_space. cbn. rewrite Hc. reflexivity. }
    destruct (at_blank_or_end s) eqn:Hs.
    + apply (runs_cons "" (String c "") s (split_ws s)); try assumption. reflexivity.
    + destruct (runs_of_solid_start s _ IH Hs)
        as (letter & rest & others & Hsplit & Hletters & Hsolid & Hrest & Hruns).
      rewrite Hletters. cbn [cons_head]. rewrite Hsplit.
      apply (runs_cons "" (String c letter) rest others); try assumption; [reflexivity |].
      unfold solid, not_space in *. cbn. rewrite Hc. cbn.
      apply andb_true_iff in Hsolid. exact (proj2 Hsolid).
Qed.

(** ** Trimming and word separation do not touch the letters *)

Lemma split_ws_lstrip (s : string) : split_ws (lstrip s) = split_ws s.
Proof.
  induction s as [|c s IH]; [reflexivity |].
  cbn [lstrip]. destruct (isspace c) eqn:Hc; [| reflexivity].
  rewrite split_ws_unfold, Hc. exact IH.
Qed.

Lemma at_blank_or_end_rstrip (s : string) : at_blank_or_end (rstrip s) = at_blank_or_end s.
Proof.
  destruct s as [|c s]; [reflexivity |].
  cbn [rstrip at_blank_or_end].
  destruct (isspace c) eqn:Hc; cbn [andb].
  - destruct (is_empty (rstrip s)); [reflexivity | cbn; exact Hc].
  - cbn. exact Hc.
Qed.

Lemma split_ws_rstrip (s : string) : split_ws (rstrip s) = split_ws s.
Proof.
  induction s as [|c s IH]; [reflexivity |].
  cbn [rstrip]. destruct (isspace c && is_empty (rstrip s)) eqn:E.
  - apply andb_true_iff in E as [Hc He].
    rewrite split_ws_unfold, Hc, <- IH.
    destruct (rstrip s); [reflexivity | discriminate He].
  - rewrite !split_ws_unfold, at_blank_or_end_rstrip, IH. reflexivity.
Qed.

Lemma split_ws_strip (s : string) : split_ws (strip s) = split_ws s.
Proof. unfold strip. rewrite split_ws_rstrip. apply split_ws_lstrip. Qed.

Lemma prefix_cons (a c : ascii) (p s : string) :
  prefix (String a p) (String c s) = true -> a = c /\ prefix p s = true.
Proof.
  cbn [prefix]. destruct (ascii_dec a c) as [E | E]; [| discriminate].
  intros H. split; assumption.
Qed.

Lemma split_scan_head (s : string) :
  exists (w : string) (ws : list string),
    split_scan "   " 0 s = w :: ws /\ at_blank_or_end w = at_blank_or_end s.
Proof.
  destruct s as [|c s]; [exists "", []; split; reflexivity |].
  cbn [split_scan]. destruct (prefix "   " (String c s)) eqn:Hp.
  - apply prefix_cons in Hp as [<- _]. eexists _, _. split; reflexivity.
  - destruct (split_scan "   " 0 s) as [|w ws] eqn:E.
    + exfalso. exact (split_scan_not_nil _ _ _ E).
    + exists (String c w), ws. split; reflexivity.
Qed.

Lemma split_ws_solid_start (s : string) : at_blank_or_end s = false -> split_ws s <> [].
Proof.
  destruct s as [|c s]; [discriminate |]. cbn [at_blank_or_end]. intros Hc.
  rewrite split_ws_unfold, Hc.
  destruct (at_blank_or_end s); [discriminate |].
  unfold cons_head. destruct (split_ws s); discriminate.
Qed.

(** Cutting at the word separators, with the rest of a separator still to
    be passed over or not, leaves the runs without blanks as they are. *)
Lemma split_scan_letters (s : string) :
  flat_map split_ws (split_scan "   " 0 s) = split_ws s /\
  (prefix " " s = true -> flat_map split_ws (split_scan "   " 1 s) = split_ws s) /\
  (prefix "  " s = true -> flat_map split_ws (split_scan "   " 2 s) = split_ws s).
Proof.
  induction s as [|c s (IH0 & IH1 & IH2)].
  - repeat split; (reflexivity || discriminate).
  - split; [| split].
    + cbn [split_scan]. destruct (prefix "   " (String c s)) eqn:Hp.
      * apply prefix_cons in Hp as [<- Hp]. cbn [length Nat.sub flat_map split_ws app].
        rewrite (IH2 Hp). reflexivity.
      * destruct (split_scan_head s) as (w & ws & Hsplit & Hhead).
        rewrite Hsplit in *. cbn [cons_head flat_map] in *.
        rewrite !split_ws_unfold, Hhead. destruct (isspace c); [exact IH0 |].
        destruct (at_blank_or_end s) eqn:Hs.
        -- cbn [app]. rewrite IH0. reflexivity.
        -- rewrite <- IH0.
           pose proof (split_ws_solid_start w Hhead) as Hne.
           destruct (split_ws w); [now destruct Hne | reflexivity].
    + intros Hp. apply prefix_cons in Hp as [<- _]. cbn [split_scan]. exact IH0.
    + intros Hp. apply prefix_cons in Hp as [<- Hp]. cbn [split_scan].
      rewrite (IH1 Hp). reflexivity.
Qed.

(** The letters that the decoder looks up are the runs without blanks of
    the whole transcript. *)
Lemma letters_of_split_ws (morse : string) : letters_of morse = split_ws morse.
Proof.
  unfold letters_of. rewrite (proj1 (split_scan_letters (strip morse))).
  apply split_ws_strip.
Qed.

Lemma solid_not_empty (letter : string) : solid letter = true -> letter <> "".
Proof. destruct letter; [discriminate | discriminate]. Qed.

Lemma runs_of_not_empty (s : string) (letters : list string) :
  runs_of s letters -> Forall (fun letter => letter <> "") letters.
Proof.
  induction 1 as [pad Hpad | pad letter rest letters Hpad Hletter Hrest Hruns IH];
    constructor; [apply solid_not_empty, Hletter | exact IH].
Qed.

(** ** Trimming, independently *)

Lemma rstrip_ends_solid (t : string) : ends_solid t = true -> rstrip t = t.
Proof.
  induction t as [|c t IH]; [discriminate |].
  cbn [ends_solid rstrip]. destruct t as [|c' t'].
  - cbn. unfold not_space. intros Hc. apply negb_true_iff in Hc. rewrite Hc. reflexivity.
  - cbn [is_empty]. intros Ht. rewrite (IH Ht). cbn [is_empty]. rewrite andb_false_r.
    reflexivity.
Qed.

Lemma strip_of_trimmed (t : string) : trimmed t = true -> strip t = t.
Proof.
  unfold trimmed, strip. destruct t as [|c t]; [reflexivity |].
  cbn [is_empty orb]. intros H. apply andb_true_iff in H as [Hstart Hend].
  rewrite (lstrip_starts_solid _ Hstart). apply rstrip_ends_solid, Hend.
Qed.

(** What [trimmed_of] describes is what [strip] returns. *)
Lemma trimmed_of_strip (s core : string) : trimmed_of s core -> strip s = core.
Proof.
  intros (before & after & -> & Hb & Ha & Hcore).
  rewrite strip_padded by assumption. apply strip_of_trimmed, Hcore.
Qed.

Lemma rstrip_shape (t : string) : rstrip t = "" \/ ends_solid (rstrip t) = true.
Proof.
  induction t as [|c t IH]; [left; reflexivity |].
  cbn [rstrip]. destruct (isspace c && is_empty (rstrip t)) eqn:E; [left; reflexivity |].
  right. cbn [ends_solid]. destruct (rstrip t) as [|c' r] eqn:Hr.
  - cbn [is_empty] in *. rewrite andb_true_r in E. unfold not_space. rewrite E. reflexivity.
  - cbn [is_empty]. destruct IH as [IH | IH]; [discriminate IH | exact IH].
Qed.

Lemma strip_is_trimmed (s : string) : trimmed (strip s) = true.
Proof.
  unfold trimmed, strip.
  destruct (lstrip_shape s) as [-> | Hstart]; [reflexivity |].
  pose proof (rstrip_starts_solid _ Hstart) as Hstart'.
  destruct (rstrip_shape (lstrip s)) as [E | Hend].
  - rewrite E in Hstart'. discriminate Hstart'.
  - rewrite Hstart', Hend. apply orb_true_r.
Qed.

Lemma lstrip_pad (s : string) :
  exists pad : string, s = pad ++ lstrip s /\ blanks_only pad = true.
Proof.
  induction s as [|c s (pad & Hs & Hpad)]; [exists ""; split; reflexivity |].
  cbn [lstrip]. destruct (isspace c) eqn:Hc.
  - exists (String c pad). split.
    + cbn [append]. rewrite <- Hs. reflexivity.
    + unfold blanks_only in *. cbn [all_chars]. rewrite Hc, Hpad. reflexivity.
  - exists "". split; reflexivity.
Qed.

Lemma rstrip_pad (t : string) :
  exists pad : string, t = rstrip t ++ pad /\ blanks_only pad = true.
Proof.
  induction t as [|c t (pad & Ht & Hpad)]; [exists ""; split; reflexivity |].
  cbn [rstrip]. destruct (isspace c && is_empty (rstrip t)) eqn:E.
  - apply andb_true_iff in E as [Hc He].
    exists (String c pad). split.
    + destruct (rstrip t); [| discriminate He]. cbn [append] in *. rewrite <- Ht. reflexivity.
    + unfold blanks_only in *. cbn [all_chars]. rewrite Hc, Hpad. reflexivity.
  - exists pad. split; [| exact Hpad]. cbn [append]. rewrite <- Ht. reflexivity.
Qed.

(** And [strip] returns it for every string. *)
Lemma strip_trimmed_of (s : string) : trimmed_of s (strip s).
Proof.
  destruct (lstrip_pad s) as (before & Hs & Hb).
  destruct (rstrip_pad (lstrip s)) as (after & Ht & Ha).
  exists before, after. repeat split; [| exact Hb | exact Ha | apply strip_is_trimmed].
  unfold strip. rewrite <- Ht. exact Hs.
Qed.

(** ** Word separation, independently *)

Lemma prefix_app_long (p a x : string) :
  (length p <= length a)%nat -> prefix p (a ++ x) = prefix p a.
Proof.
  revert a. induction p as [|b p IH]; intros a Hlen.
  - rewrite !prefix_empty. reflexivity.
  - destruct a as [|c a]; [cbn in Hlen; lia |].
    cbn [append prefix]. destruct (ascii_dec b c); [| reflexivity].
    apply IH. cbn in Hlen. lia.
Qed.

Lemma length_append (a b : string) : length (a ++ b) = (length a + length b)%nat.
Proof. induction a as [|c a IH]; cbn; [reflexivity | now rewrite IH]. Qed.

(** A separator that starts in front of [word ++ "   " ++ rest] starts in
    front of [word ++ "  "]. *)
Lemma prefix_word_then (c : ascii) (word rest : string) :
  prefix "   " (String c (word ++ "   " ++ rest)) = prefix "   " (String c (word ++ "  ")).
Proof.
  replace (String c (word ++ "   " ++ rest)) with (String c (word ++ "  ") ++ " " ++ rest).
  - apply prefix_app_long. cbn [length]. rewrite length_append. cbn [length]. lia.
  - cbn [append]. rewrite append_assoc. reflexivity.
Qed.

Lemma split_scan_word_then (word rest : string) :
  contains "   " (word ++ "  ") = false ->
  split_scan "   " 0 (word ++ "   " ++ rest) = word :: split_scan "   " 0 rest.
Proof.
  induction word as [|c word IH]; intros Hfree.
  - cbn. rewrite prefix_empty. reflexivity.
  - change (String c word ++ "   " ++ rest) with (String c (word ++ "   " ++ rest)).
    change (String c word ++ "  ") with (String c (word ++ "  ")) in Hfree.
    cbn [contains] in Hfree. apply orb_false_iff in Hfree as [Hp Hfree].
    cbn [split_scan]. rewrite prefix_word_then, Hp, (IH Hfree). reflexivity.
Qed.

Lemma split_scan_word (word : string) :
  contains "   " word = false -> split_scan "   " 0 word = [word].
Proof.
  induction word as [|c word IH]; intros Hfree; [reflexivity |].
  cbn [contains] in Hfree. apply orb_false_iff in Hfree as [Hp Hfree].
  cbn [split_scan]. rewrite Hp, (IH Hfree). reflexivity.
Qed.

(** What [separated] describes is what [split("   ")] returns. *)
Lemma separated_split_scan (s : string) (words : list string) :
  separated s words -> split_scan "   " 0 s = words.
Proof.
  induction 1 as [word Hfree | word rest words Hfree Hrest IH].
  - apply split_scan_word, Hfree.
  - rewrite split_scan_word_then by exact Hfree. rewrite IH. reflexivity.
Qed.

Lemma separated_cons (c : ascii) (s : string) (words : list string) :
  prefix "   " (String c s) = false ->
  separated s words -> separated (String c s) (cons_head c words).
Proof.
  intros Hp Hsep. destruct Hsep as [word Hfree | word rest words Hfree Hrest].
  - cbn [cons_head]. apply separated_last. cbn [contains]. rewrite Hp, Hfree. reflexivity.
  - cbn [cons_head].
    change (String c (word ++ "   " ++ rest)) with (String c word ++ "   " ++ rest).
    apply separated_more; [| exact Hrest].
    change (String c word ++ "  ") with (String c (word ++ "  ")).
    cbn [contains]. rewrite <- (prefix_word_then c word rest), Hp, Hfree. reflexivity.
Qed.

Lemma prefix_word_space (s : string) :
  prefix "   " s = true -> exists r : string, s = "   " ++ r.
Proof.
  intros Hp.
  destruct s as [|c1 [|c2 [|c3 r]]]; try discriminate Hp.
  - apply prefix_cons in Hp as [_ Hp]. discriminate Hp.
  - apply prefix_cons in Hp as [_ Hp]. apply prefix_cons in Hp as [_ Hp]. discriminate Hp.
  - apply prefix_cons in Hp as [<- Hp]. apply prefix_cons in Hp as [<- Hp].
    apply prefix_cons in Hp as [<- _]. exists r. reflexivity.
Qed.

(** And [split("   ")] returns it for every string. *)
Lemma split_scan_separated (s : string) : separated s (split_scan "   " 0 s).
Proof.
  assert (Hall : forall (n : nat) (t : string),
             (length t <= n)%nat -> separated t (split_scan "   " 0 t)).
  { induction n as [|n IH]; intros t Hlen.
    - destruct t; [apply separated_last; reflexivity | cbn in Hlen; lia].
    - destruct t as [|c t]; [apply separated_last; reflexivity |].
      destruct (prefix "   " (String c t)) eqn:Hp.
      + destruct (prefix_word_space _ Hp) as (r & Hr). rewrite Hr.
        replace (split_scan "   " 0 ("   " ++ r)) with ("" :: split_scan "   " 0 r)
          by (cbn; rewrite prefix_empty; reflexivity).
        apply (separated_more "" r); [reflexivity |].
        apply IH. rewrite Hr in Hlen. cbn in Hlen. lia.
      + cbn [split_scan]. rewrite Hp. apply separated_cons; [exact Hp |].
        apply IH. cbn in Hlen. lia. }
  exact (Hall (length s) s (Nat.le_refl _)).
Qed.

Lemma runs_of_words (words : list string) (tokens : list (list string)) :
  Forall2 runs_of words tokens -> map split_ws words = tokens.
Proof.
  induction 1 as [|word letters words tokens Hruns Hrest IH]; [reflexivity |].
  cbn [map]. rewrite IH, <- (runs_of_split_ws word letters Hruns). reflexivity.
Qed.

(** Every transcript has its trimmed core, the words of the core, and the
    letters of each word. *)
Lemma transcript_parts (morse : string) :
  exists (core : string) (words : list string) (tokens : list (list string)),
    trimmed_of morse core /\ separated core words /\ Forall2 runs_of words tokens.
Proof.
  exists (strip morse), (split_scan "   " 0 (strip morse)),
    (map split_ws (split_scan "   " 0 (strip morse))).
  split; [apply strip_trimmed_of | split; [apply split_scan_separated |]].
  induction (split_scan "   " 0 (strip morse)) as [|word words IH]; constructor;
    [apply split_ws_runs_of | exact IH].
Qed.

(** ** The decoder on the parts of the transcript *)

(** C7, as the code has it: the letters of a transcript are its maximal
    runs of characters that are not blanks (every transcript has them, in
    one way only, and none of them is empty, however many spaces lie
    between them); they are the runs of the words of the trimmed
    transcript, taken word after word; and [decode_morse_code] returns a
    text that holds one placeholder for each of these letters that is not
    a key of the table, and no other. *)
Theorem unknown_letters_marked (morse : string) :
  exists letters : list string,
    runs_of morse letters /\
    (forall others : list string, runs_of morse others -> others = letters) /\
    (forall (core : string) (words : list string) (tokens : list (list string)),
        trimmed_of morse core -> separated core words -> Forall2 runs_of words tokens ->
        List.concat tokens = letters) /\
    Forall (fun letter => letter <> "") letters /\
    exists text : string,
      decode_morse_code morse = Returns text /\
      count_char lozenge_lead text = List.length (unknown_letters letters).
Proof.
  exists (split_ws morse). split; [apply split_ws_runs_of |].
  split; [intros others Hothers; apply runs_of_split_ws, Hothers |].
  split.
  { intros core words tokens Hcore Hwords Htokens.
    rewrite <- (runs_of_words _ _ Htokens), <- flat_map_concat_map.
    rewrite <- (separated_split_scan _ _ Hwords), <- (trimmed_of_strip _ _ Hcore).
    apply letters_of_split_ws. }
  split; [apply (runs_of_not_empty morse), split_ws_runs_of |].
  exists (decode_joined morse). split; [apply decode_morse_code_joined |].
  rewrite <- letters_of_split_ws. unfold decode_joined, letters_of.
  rewrite count_char_strip by reflexivity. apply count_join_words.
Qed.

(** C8: take any transcript; let [core] be the transcript without the
    blanks at its ends, [words] the pieces of [core] between the word
    separators, and [tokens] the letters of each word.  Join the decoded
    letters of each word with no separator (a letter that is not in the
    table decodes to the placeholder between two spaces, a word without
    letters to the empty string), join the words with one space, and take
    the blanks off the two ends: this text is what [decode_morse_code]
    returns. *)
Theorem decode_joins_and_trims
    (morse core : string) (words : list string) (tokens : list (list string))
    (text : string) :
  trimmed_of morse core ->
  separated core words ->
  Forall2 runs_of words tokens ->
  trimmed_of
    (concat " " (map (fun letters => concat "" (map decode_letter letters)) tokens))
    text ->
  decode_morse_code morse = Returns text.
Proof.
  intros Hcore Hwords Htokens Htext.
  rewrite decode_morse_code_joined. f_equal. unfold decode_joined.
  rewrite (trimmed_of_strip _ _ Hcore), (separated_split_scan _ _ Hwords).
  rewrite <- (runs_of_words _ _ Htokens), map_map in Htext.
  apply trimmed_of_strip. exact Htext.
Qed.

(** X9: the text that [decode_morse_code] returns has no blank at either
    end, whatever the transcript: it is empty, or its first character and
    its last character are not blanks. *)
Theorem decoded_text_trimmed (morse : string) :
  exists text : string,
    decode_morse_code morse = Returns text /\
    (text = "" \/ (starts_solid text = true /\ ends_solid text = true)).
Proof.
  exists (decode_joined morse). split; [apply decode_morse_code_joined |].
  unfold decode_joined.
  pose proof (strip_is_trimmed (join_words (split_scan "   " 0 (strip morse)))) as H.
  unfold trimmed in H.
  destruct (strip (join_words (split_scan "   " 0 (strip morse)))) as [|c t];
    [left; reflexivity | right].
  cbn [is_empty orb] in H. apply andb_true_iff in H. exact H.
Qed.

(** ** [eye_aspect_ratio] on the mesh *)

Lemma landmark_at_in (mesh : list Landmark) (i : nat) :
  (i < List.length mesh)%nat -> landmark_at mesh i = Item (mesh_map mesh i).
Proof.
  intros Hi. unfold landmark_at, mesh_map.
  rewrite (nth_error_nth' mesh {| y := 0 |} Hi). reflexivity.
Qed.

Lemma landmark_at_out (mesh : list Landmark) (i : nat) :
  (List.length mesh <= i)%nat -> landmark_at mesh i = IndexError.
Proof.
  intros Hi. unfold landmark_at.
  rewrite (proj2 (nth_error_None mesh i) Hi). reflexivity.
Qed.

(** X1: on a mesh of [n] landmarks, [eye_aspect_ratio] raises [IndexError]
    as soon as one of the two indices is [n] or more; with both indices
    below [n] it returns a ratio that is never negative, that does not
    depend on which of the two lid landmarks comes first, that is zero
    when both are the same landmark, and that is the ratio
    [process_frame] works with. *)
Theorem eye_aspect_ratio_distance (mesh : list Landmark) (a b : nat) :
  ((List.length mesh <= a)%nat \/ (List.length mesh <= b)%nat ->
   eye_aspect_ratio_in mesh (a, b) = IndexError) /\
  ((a < List.length mesh)%nat -> (b < List.length mesh)%nat ->
   exists r : Q,
     eye_aspect_ratio_in mesh (a, b) = Item r /\
     eye_aspect_ratio_in mesh (b, a) = Item r /\
     (0 <= r)%Q /\
     (a = b -> (r == 0)%Q) /\
     r = eye_aspect_ratio (mesh_map mesh) (a, b)).
Proof.
  unfold eye_aspect_ratio_in, eye_aspect_ratio. cbn [fst snd]. split.
  - intros [Ha | Hb].
    + rewrite (landmark_at_out mesh a Ha). reflexivity.
    + rewrite (landmark_at_out mesh b Hb). destruct (landmark_at mesh a); reflexivity.
  - intros Ha Hb. rewrite (landmark_at_in mesh a Ha), (landmark_at_in mesh b Hb).
    exists (Qabs (y (mesh_map mesh a) - y (mesh_map mesh b))).
    split; [reflexivity |]. split; [rewrite Qabs_Qminus; reflexivity |].
    split; [apply Qabs_nonneg |]. split; [| reflexivity].
    intros <-. rewrite Qabs_pos.
    + ring.
    + setoid_replace (y (mesh_map mesh a) - y (mesh_map mesh a))%Q with 0%Q by ring.
      apply Qle_refl.
Qed.

(** ** These theorems at work *)

Example decode_edge_outputs :
  decode_morse_code ".      ." = Returns "E  E" /\
  decode_morse_code ".- .-.-.-.- .-" = Returns "A ◊ A" /\
  decode_morse_code ".-.-.-.-" = Returns "◊" /\
  decode_morse_code "   ." = Returns "E".
Proof. repeat split. Qed.

Example eye_aspect_ratio_past_the_mesh :
  eye_aspect_ratio_in [{| y := 0.5 |}; {| y := 0.25 |}] (0%nat, 1%nat) = Item (Qabs (0.5 - 0.25)) /\
  eye_aspect_ratio_in [{| y := 0.5 |}; {| y := 0.25 |}] (0%nat, 2%nat) = IndexError.
Proof. split; reflexivity. Qed.

Lemma decode_joins_and_trims_witness :
  decode_morse_code " ...   .-.-.-.- . " = Returns "S  ◊ E".
Proof.
  refine (decode_joins_and_trims " ...   .-.-.-.- . " "...   .-.-.-.- ."
            ["..."; ".-.-.-.- ."] [["..."]; [".-.-.-.-"; "."]] "S  ◊ E" _ _ _ _).
  - exists " ", " ". repeat split.
  - apply (separated_more "..." ".-.-.-.- ." [".-.-.-.- ."]); [reflexivity |].
    apply separated_last. reflexivity.
  - constructor; [| constructor; [| constructor]].
    + apply (runs_cons "" "..." "" []); try reflexivity. apply runs_none. reflexivity.
    + apply (runs_cons "" ".-.-.-.-" " ." ["."]); try reflexivity.
      apply (runs_cons " " "." "" []); try reflexivity. apply runs_none. reflexivity.
  - exists "", "". repeat split.
Defined.
